(** * sysfract.py: the DuckyScript-to-HID-report compiler

    A shallow embedding of [parse_key] and [compile_duckyscript] of
    [src/sysfract.py], with the tables [KEYMAP] and [MODIFIERS], and the
    properties of the compiled report stream.

    Conventions.
    - A Python [str] is a list of Unicode code points ([N]).
    - A Python [int] is a [Z]; [//] on a positive divisor is [Z.div] (both
      round towards minus infinity) and [|] is [Z.lor].
    - A [bytearray] is a list of [Z]; storing a value outside [range(256)]
      raises [ValueError], storing at an index out of range [IndexError].
    - The built-in [str] methods whose result depends on the Unicode
      character database ([isspace], line boundaries, [lower], [upper],
      [isupper]) and [int()] are the fields of the class [Unicode]; the
      embedding of the source is written over an arbitrary instance, and
      [ascii_unicode] is the instance that agrees with CPython on ASCII text.
    - A repetition [b * n] computed at run time raises [OverflowError] when
      the result does not fit the index size and [MemoryError] when memory
      is short; which sizes raise is the field [repeat_error] of the same
      class.  Repetitions of two literals ([b"\x00" * 8], [b"\x00" * 16])
      are constants of the compiled code.
    - [print] appends a [Diagnostic] to the standard output, which is part
      of the state of the compilation loop.
    - The configurable bound on the number of digits [int()] accepts, and
      memory exhaustion elsewhere than in a run-time repetition, are not
      modelled. *)

From Stdlib Require Import String Ascii ZArith NArith Bool Lia List.
From Stdlib Require Import Sorted.
Import ListNotations.
Open Scope Z_scope.

(** ** Strings *)

Definition char := N.
Definition str := list char.

(** A literal: the code points of an ASCII string. *)
Definition py (s : string) : str := map N_of_ascii (list_ascii_of_string s).

Definition str_eq_dec : forall a b : str, {a = b} + {a <> b} :=
  list_eq_dec N.eq_dec.

Definition str_eqb (a b : str) : bool :=
  if str_eq_dec a b then true else false.

(** [x in xs] for a list of strings. *)
Definition in_strs (x : str) (xs : list str) : bool :=
  existsb (str_eqb x) xs.

(** [char in s] for a one-character [char]. *)
Definition in_str (c : char) (s : str) : bool :=
  existsb (N.eqb c) s.

(** [s.startswith(prefix)]. *)
Fixpoint startswith (s prefix : str) {struct prefix} : bool :=
  match prefix, s with
  | [], _ => true
  | _ :: _, [] => false
  | p :: prefix', c :: s' => N.eqb c p && startswith s' prefix'
  end.

(** [s.startswith((p1, p2, ...))]. *)
Definition startswith_any (s : str) (prefixes : list str) : bool :=
  existsb (startswith s) prefixes.

Fixpoint dropwhile (f : char -> bool) (s : str) : str :=
  match s with
  | [] => []
  | c :: s' => if f c then dropwhile f s' else s
  end.

(** The longest prefix of characters not satisfying [f], and the rest. *)
Fixpoint break (f : char -> bool) (s : str) : str * str :=
  match s with
  | [] => ([], [])
  | c :: s' =>
      if f c then ([], s)
      else let '(w, r) := break f s' in (c :: w, r)
  end.

(** [s.strip()] for the whitespace predicate [sp]. *)
Definition strip_by (sp : char -> bool) (s : str) : str :=
  rev (dropwhile sp (rev (dropwhile sp s))).

(** [s.split(maxsplit=1)] for the whitespace predicate [sp]: the first word,
    and what follows the whitespace after it when that is not empty. *)
Definition split_maxsplit1_by (sp : char -> bool) (s : str) : list str :=
  match dropwhile sp s with
  | [] => []
  | s1 =>
      let '(w, r) := break sp s1 in
      match dropwhile sp r with
      | [] => [w]
      | r' => [w; r']
      end
  end.

(** [s.split(sep)] for a one-character separator: never empty. *)
Fixpoint split_on (sep : char) (cur : str) (s : str) : list str :=
  match s with
  | [] => [rev cur]
  | c :: s' =>
      if N.eqb c sep then rev cur :: split_on sep [] s'
      else split_on sep (c :: cur) s'
  end.

(** [s.splitlines()] for the line-boundary predicate [lb]; a carriage return
    followed by a line feed is one boundary, and a final line without
    boundary is kept only when it is not empty. *)
Fixpoint splitlines_by (lb : char -> bool) (cur : str) (s : str) : list str :=
  match s with
  | [] => match cur with [] => [] | _ => [rev cur] end
  | c :: s' =>
      if lb c then
        rev cur ::
          match s' with
          | d :: s'' =>
              if N.eqb c 13 && N.eqb d 10 then splitlines_by lb [] s''
              else splitlines_by lb [] s'
          | [] => splitlines_by lb [] s'
          end
      else splitlines_by lb (c :: cur) s'
  end.

(** ** Exceptions and the Unicode-dependent built-ins *)

(** The exceptions the modelled operations raise: [ValueError] of [int()] on
    an invalid literal, [ValueError] of a byte store outside [range(256)],
    [KeyError] of a subscript, [IndexError] of an index out of range,
    [OverflowError] and [MemoryError] of a repetition too long to build. *)
Inductive Exception : Type :=
| ValueError_int (literal : str)
| ValueError_byte (value : Z)
| KeyError (key : str)
| IndexError
| OverflowError
| MemoryError.

Class Unicode : Type := {
  isspace : char -> bool;
  islinebreak : char -> bool;
  lower : str -> str;
  upper : str -> str;
  isupper : str -> bool;
  int : str -> Exception + Z;
  repeat_error : Z -> option Exception
}.

(** ** The tables *)

Definition dict := list (str * Z).

Fixpoint dict_lookup (d : dict) (k : str) : option Z :=
  match d with
  | [] => None
  | (k', v) :: d' => if str_eq_dec k k' then Some v else dict_lookup d' k
  end.

(** [d.get(k, default)]. *)
Definition dict_get (d : dict) (k : str) (default : Z) : Z :=
  match dict_lookup d k with Some v => v | None => default end.

Definition KEYMAP : dict :=
  [ (py "a", 0x04); (py "b", 0x05); (py "c", 0x06); (py "d", 0x07);
    (py "e", 0x08); (py "f", 0x09); (py "g", 0x0A); (py "h", 0x0B);
    (py "i", 0x0C); (py "j", 0x0D); (py "k", 0x0E); (py "l", 0x0F);
    (py "m", 0x10); (py "n", 0x11); (py "o", 0x12); (py "p", 0x13);
    (py "q", 0x14); (py "r", 0x15); (py "s", 0x16); (py "t", 0x17);
    (py "u", 0x18); (py "v", 0x19); (py "w", 0x1A); (py "x", 0x1B);
    (py "y", 0x1C); (py "z", 0x1D);
    (py "1", 0x1E); (py "2", 0x1F); (py "3", 0x20); (py "4", 0x21);
    (py "5", 0x22); (py "6", 0x23); (py "7", 0x24); (py "8", 0x25);
    (py "9", 0x26); (py "0", 0x27);
    (py "enter", 0x28); (py "esc", 0x29); (py "backspace", 0x2A);
    (py "tab", 0x2B); (py "space", 0x2C);
    (py "-", 0x2D); (py "equals", 0x2E); (py "[", 0x2F); (py "]", 0x30);
    ([92%N], 0x31);
    (py ";", 0x33); (py "'", 0x34); (py "`", 0x35); (py ",", 0x36);
    (py ".", 0x37); (py "/", 0x38);
    (py "f1", 0x3A); (py "f2", 0x3B); (py "f3", 0x3C); (py "f4", 0x3D);
    (py "f5", 0x3E); (py "f6", 0x3F);
    (py "f7", 0x40); (py "f8", 0x41); (py "f9", 0x42); (py "f10", 0x43);
    (py "f11", 0x44); (py "f12", 0x45);
    (py "right", 0x4F); (py "left", 0x50); (py "down", 0x51); (py "up", 0x52) ].

Definition MODIFIERS : dict :=
  [ (py "ctrl", 0x01); (py "shift", 0x02); (py "alt", 0x04);
    (py "gui", 0x08); (py "win", 0x08); (py "windows", 0x08) ].

(** ** Byte buffers *)

Definition bytearray := list Z.

(** [bytearray(n)]: [n] zero bytes. *)
Definition zeros (n : nat) : bytearray := repeat 0 n.

(** The value of [b * n] for a bytes object [b] and an int [n] (empty when
    [n <= 0]), when it can be built: a repetition of literals, which the
    compiler folds into a constant, or a run-time repetition that does not
    raise (see [bytes_repeat]). *)
Definition bytes_mul (b : bytearray) (n : Z) : bytearray :=
  concat (repeat b (Z.to_nat n)).

Fixpoint list_set (l : bytearray) (i : nat) (v : Z) : bytearray :=
  match l, i with
  | [], _ => []
  | _ :: l', O => v :: l'
  | x :: l', S i' => x :: list_set l' i' v
  end.

(** [packet[i] = v]. *)
Definition setitem (packet : bytearray) (i : nat) (v : Z)
  : Exception + bytearray :=
  if (0 <=? v) && (v <? 256) then
    if (i <? length packet)%nat then inr (list_set packet i v)
    else inl IndexError
  else inl (ValueError_byte v).

(** [d[k]]. *)
Definition getitem (d : dict) (k : str) : Exception + Z :=
  match dict_lookup d k with
  | Some v => inr v
  | None => inl (KeyError k)
  end.

(** ** The body of the [try] block: exceptions over the buffer [binary]

    [binary] is extended in place, so what was appended before an exception
    is raised stays in the buffer. *)

Definition M (A : Type) : Type := bytearray -> (Exception + A) * bytearray.

Definition ret {A} (a : A) : M A := fun binary => (inr a, binary).

Definition bind {A B} (m : M A) (k : A -> M B) : M B :=
  fun binary =>
    match m binary with
    | (inr a, binary') => k a binary'
    | (inl e, binary') => (inl e, binary')
    end.

Definition lift {A} (r : Exception + A) : M A :=
  fun binary => (r, binary).

(** [binary += data]. *)
Definition iadd (data : bytearray) : M unit :=
  fun binary => (inr tt, binary ++ data).

Notation "x <- m ;; k" := (bind m (fun x => k))
  (at level 61, m at next level, right associativity).
Notation "m ;;; k" := (bind m (fun _ => k))
  (at level 61, right associativity).

(** [for x in xs: body x]. *)
Fixpoint for_each {A} (xs : list A) (body : A -> M unit) : M unit :=
  match xs with
  | [] => ret tt
  | x :: xs' => body x ;;; for_each xs' body
  end.

(** [for i, k in enumerate(ks): packet[start + i] = k], on the local
    [packet], from index [i]. *)
Fixpoint store_keys (packet : bytearray) (i : nat) (ks : list Z)
  : Exception + bytearray :=
  match ks with
  | [] => inr packet
  | k :: ks' =>
      match setitem packet (2 + i) k with
      | inr packet' => store_keys packet' (S i) ks'
      | inl e => inl e
      end
  end.

Record Diagnostic : Type := {
  diag_line_nr : Z;
  diag_line : str;
  diag_error : Exception
}.

Record State : Type := {
  binary : bytearray;
  line_nr : Z;
  stdout : list Diagnostic
}.

(** The shifted punctuation of the [STRING] handler. *)
Definition SHIFTED : str := py "!@#$%^&*()_+{}|:" ++ [34%N] ++ py "<>?~".

Definition SPACE : char := 32%N.
Definition NEWLINE : char := 10%N.
Definition HYPHEN : char := 45%N.

Section Compiler.

Context {U : Unicode}.

Definition strip (s : str) : str := strip_by isspace s.
Definition split_maxsplit1 (s : str) : list str := split_maxsplit1_by isspace s.
Definition splitlines (s : str) : list str := splitlines_by islinebreak [] s.

(** [b * n] computed at run time.  A count below 1 gives the empty bytes
    object and the count 1 gives [b] itself, without building anything; a
    larger count builds [len(b) * n] bytes, which raises when
    [repeat_error] says so for that size. *)
Definition bytes_repeat (b : bytearray) (n : Z) : Exception + bytearray :=
  if n <=? 0 then inr []
  else if n =? 1 then inr b
  else
    match repeat_error (Z.of_nat (length b) * n) with
    | Some e => inl e
    | None => inr (bytes_mul b n)
    end.

(** One iteration of the loop of [parse_key] over the state [(mod, keys)]. *)
Definition parse_key_step (acc : Z * list Z) (p : str) : Z * list Z :=
  let '(mod_, keys) := acc in
  match dict_lookup MODIFIERS p with
  | Some m => (Z.lor mod_ m, keys)
  | None =>
      match dict_lookup KEYMAP p with
      | Some k => (mod_, keys ++ [k])
      | None => (mod_, keys)
      end
  end.

Definition parse_key (key_str : str) : Z * list Z :=
  let parts := map strip (split_on HYPHEN [] (lower key_str)) in
  fold_left parse_key_step parts (0, []).

(** The body of [for char in arg] of the [STRING] handler. *)
Definition string_char (ch : char) : M unit :=
  let mod_ := 0 in
  let key := 0 in
  let c := lower [ch] in
  let key := match dict_lookup KEYMAP c with Some k => k | None => key end in
  mod_ <- (if isupper [ch] || in_str ch SHIFTED
           then lift (match getitem MODIFIERS (py "shift") with
                      | inr s => inr (Z.lor mod_ s)
                      | inl e => inl e
                      end)
           else ret mod_) ;;
  key <- (if N.eqb ch SPACE then lift (getitem KEYMAP (py "space"))
          else ret key) ;;
  km <- (if N.eqb ch NEWLINE
         then lift (match getitem KEYMAP (py "enter") with
                    | inr k => inr (k, 0)
                    | inl e => inl e
                    end)
         else ret (key, mod_)) ;;
  let '(key, mod_) := km in
  if Z.eqb key 0 then ret tt
  else
    packet <- lift (setitem (zeros 8) 0 mod_) ;;
    packet <- lift (setitem packet 2 key) ;;
    iadd packet ;;;
    iadd (bytes_mul [0] 16).

(** The body of the [try] block, for the command word and its argument. *)
Definition try_body (cmd arg : str) : M unit :=
  if str_eqb cmd (py "DELAY") then
    ms <- lift (int arg) ;;
    let reports := Z.max 1 ((ms + 10) / 12) in
    data <- lift (bytes_repeat (bytes_mul [0] 8) reports) ;;
    iadd data
  else if str_eqb cmd (py "STRING") then
    for_each arg string_char
  else if in_strs cmd [py "ENTER"; py "TAB"; py "ESC"; py "BACKSPACE"] then
    let key := dict_get KEYMAP (lower cmd) 0 in
    if Z.eqb key 0 then ret tt
    else
      packet <- lift (setitem (zeros 8) 2 key) ;;
      iadd (packet ++ bytes_mul [0] 16)
  else
    let '(mod_, keys) := parse_key cmd in
    let '(mod_, keys) :=
      match arg with
      | [] => (mod_, keys)
      | _ => let '(mod2, keys2) := parse_key arg in
             (Z.lor mod_ mod2, keys ++ keys2)
      end in
    match keys with
    | [] => ret tt
    | _ =>
        packet <- lift (setitem (zeros 8) 0 mod_) ;;
        packet <- lift (store_keys packet 0 (firstn 6 keys)) ;;
        iadd (packet ++ bytes_mul [0] 16)
    end.

Definition COMMENT_PREFIXES : list str := [py "REM"; py "//"; py "#"].

(** One iteration of [for line in text.splitlines()]; [inl] is an exception
    that leaves the function. *)
Definition loop_body (st : State) (line : str) : Exception + State :=
  let line_nr := st.(line_nr) + 1 in
  let line := strip line in
  match line with
  | [] => inr {| binary := st.(binary); line_nr := line_nr;
                 stdout := st.(stdout) |}
  | _ =>
    if startswith_any line COMMENT_PREFIXES then
      inr {| binary := st.(binary); line_nr := line_nr;
             stdout := st.(stdout) |}
    else
      let parts := split_maxsplit1 line in
      match nth_error parts 0 with
      | None => inl IndexError
      | Some part0 =>
          let cmd := upper part0 in
          let arg := if (1 <? length parts)%nat
                     then strip (nth 1 parts []) else [] in
          match try_body cmd arg st.(binary) with
          | (inr _, binary') =>
              inr {| binary := binary'; line_nr := line_nr;
                     stdout := st.(stdout) |}
          | (inl e, binary') =>
              inr {| binary := binary'; line_nr := line_nr;
                     stdout := st.(stdout) ++
                       [{| diag_line_nr := line_nr; diag_line := line;
                           diag_error := e |}] |}
          end
      end
  end.

Fixpoint for_lines (lines : list str) (st : State) : Exception + State :=
  match lines with
  | [] => inr st
  | line :: lines' =>
      match loop_body st line with
      | inr st' => for_lines lines' st'
      | inl e => inl e
      end
  end.

Definition initial : State := {| binary := []; line_nr := 0; stdout := [] |}.

(** The bytes returned and the diagnostics printed, or the exception that
    leaves the function. *)
Definition compile_duckyscript (text : str)
  : Exception + (bytearray * list Diagnostic) :=
  match for_lines (splitlines text) initial with
  | inr st => inr (st.(binary), st.(stdout))
  | inl e => inl e
  end.

End Compiler.

(** ** The built-ins on ASCII text

    [isspace] and [islinebreak] are the tables of CPython for every code
    point; [lower], [upper], [isupper] and [int] are those of CPython on
    strings of code points below 128, and treat the others as uncased and as
    non-digits.  [repeat_error] is that of a 64-bit interpreter that never
    runs out of memory. *)

Definition between (lo hi c : N) : bool := (N.leb lo c && N.leb c hi)%N.

Definition ascii_isspace (c : char) : bool :=
  between 0x09 0x0D c || between 0x1C 0x1F c || N.eqb c 0x20 ||
  N.eqb c 0x85 || N.eqb c 0xA0 || N.eqb c 0x1680 ||
  between 0x2000 0x200A c || N.eqb c 0x2028 || N.eqb c 0x2029 ||
  N.eqb c 0x202F || N.eqb c 0x205F || N.eqb c 0x3000.

Definition ascii_islinebreak (c : char) : bool :=
  between 0x0A 0x0D c || between 0x1C 0x1E c || N.eqb c 0x85 ||
  N.eqb c 0x2028 || N.eqb c 0x2029.

Definition is_upper_letter (c : char) : bool := between 65 90 c.
Definition is_lower_letter (c : char) : bool := between 97 122 c.

Definition lower_char (c : char) : char :=
  if is_upper_letter c then (c + 32)%N else c.

Definition upper_char (c : char) : char :=
  if is_lower_letter c then (c - 32)%N else c.

Definition ascii_lower (s : str) : str := map lower_char s.
Definition ascii_upper (s : str) : str := map upper_char s.

(** [s.isupper()]: some cased character, and no lowercase one. *)
Definition ascii_isupper (s : str) : bool :=
  existsb is_upper_letter s && negb (existsb is_lower_letter s).

(** Decimal digits with single underscores between digits. *)
Fixpoint parse_digits (acc : Z) (after_digit : bool) (s : str) : option Z :=
  match s with
  | [] => if after_digit then Some acc else None
  | c :: s' =>
      if N.eqb c 95 then
        if after_digit then parse_digits acc false s' else None
      else if between 48 57 c then
        parse_digits (10 * acc + Z.of_N (c - 48)) true s'
      else None
  end.

(** [int(s)]: surrounding whitespace, an optional sign, decimal digits. *)
Definition ascii_int (s : str) : Exception + Z :=
  let t := strip_by ascii_isspace s in
  let '(sign, digits) :=
    match t with
    | c :: t' =>
        if N.eqb c 43 then (1, t')
        else if N.eqb c 45 then (-1, t')
        else (1, t)
    | [] => (1, t)
    end in
  match parse_digits 0 false digits with
  | Some v => inr (sign * v)
  | None => inl (ValueError_int s)
  end.

(** A 64-bit interpreter with memory to spare: a repetition raises
    [OverflowError] when its size exceeds [sys.maxsize], and not otherwise. *)
Definition ascii_repeat_error (size : Z) : option Exception :=
  if size <=? 0x7FFFFFFFFFFFFFFF then None else Some OverflowError.

Definition ascii_unicode : Unicode := {|
  isspace := ascii_isspace;
  islinebreak := ascii_islinebreak;
  lower := ascii_lower;
  upper := ascii_upper;
  isupper := ascii_isupper;
  int := ascii_int;
  repeat_error := ascii_repeat_error
|}.

(** The compiler over the ASCII built-ins. *)
Definition compile (text : string) : Exception + (bytearray * list Diagnostic) :=
  @compile_duckyscript ascii_unicode (py text).

Definition resolve (key_str : string) : Z * list Z :=
  @parse_key ascii_unicode (py key_str).

(** ** Specification vocabulary *)

Section Vocabulary.

Context {U : Unicode}.

(** A modifier mask: only bits 0 to 3. *)
Definition is_mask (m : Z) : Prop := 0 <= m < 16.

(** A key code of the table: a non-zero byte. *)
Definition is_keycode (k : Z) : Prop := 0 < k < 256.

(** A value a [bytearray] can hold. *)
Definition is_byte (v : Z) : Prop := 0 <= v < 256.

(** The key-down report for a mask and at most six key codes. *)
Definition key_down (mod_ : Z) (keys : list Z) : bytearray :=
  [mod_; 0] ++ firstn 6 keys ++ zeros (6 - length (firstn 6 keys)).

(** A press/release group: the key-down report and two all-zero reports. *)
Definition press_release (mod_ : Z) (keys : list Z) : bytearray :=
  key_down mod_ keys ++ zeros 16.

(** An 8-byte report: a mask, the reserved zero byte, six key slots. *)
Definition is_report (r : bytearray) : Prop :=
  exists m ks, r = m :: 0 :: ks /\ length ks = 6%nat /\ is_mask m /\
               Forall is_byte ks.

(** A stream of reports. *)
Inductive frames : bytearray -> Prop :=
| frames_nil : frames []
| frames_cons r bs : is_report r -> frames bs -> frames (r ++ bs).

(** [appends m r bs]: from any buffer, [m] ends with the result [r] and has
    appended exactly [bs] to the buffer. *)
Definition appends {A} (m : M A) (r : Exception + A) (bs : bytearray) : Prop :=
  forall binary, m binary = (r, binary ++ bs).

(** The mask and keys of a generic line: those of the command word, then
    those of the argument when there is one. *)
Definition merged (cmd arg : str) : Z * list Z :=
  let '(mod_, keys) := parse_key cmd in
  match arg with
  | [] => (mod_, keys)
  | _ => let '(mod2, keys2) := parse_key arg in
         (Z.lor mod_ mod2, keys ++ keys2)
  end.

(** The key code the [STRING] handler resolves a character to; 0 is none. *)
Definition string_key (ch : char) : Z :=
  if N.eqb ch NEWLINE then 0x28
  else if N.eqb ch SPACE then 0x2C
  else dict_get KEYMAP (lower [ch]) 0.

(** The modifier byte the [STRING] handler computes for a character. *)
Definition string_mod (ch : char) : Z :=
  if N.eqb ch NEWLINE then 0
  else if isupper [ch] || in_str ch SHIFTED then 0x02
  else 0.

(** What one character of the argument appends. *)
Definition string_group (ch : char) : bytearray :=
  if Z.eqb (string_key ch) 0 then []
  else press_release (string_mod ch) [string_key ch].

(** The bare named-key commands. *)
Definition KEY_COMMANDS : list str :=
  [py "ENTER"; py "TAB"; py "ESC"; py "BACKSPACE"].

(** What the handler of a line appends. *)
Definition handler_bytes (cmd arg : str) : bytearray :=
  if str_eqb cmd (py "DELAY") then
    match int arg with
    | inr ms =>
        match bytes_repeat (zeros 8) (Z.max 1 ((ms + 10) / 12)) with
        | inr data => data
        | inl _ => []
        end
    | inl _ => []
    end
  else if str_eqb cmd (py "STRING") then flat_map string_group arg
  else if in_strs cmd KEY_COMMANDS then
    match dict_lookup KEYMAP (lower cmd) with
    | Some k => press_release 0 [k]
    | None => []
    end
  else
    let '(mod_, keys) := merged cmd arg in
    match keys with
    | [] => []
    | _ => press_release mod_ keys
    end.

(** How the handler of a line ends: only [int()] and the repetition of the
    [DELAY] handler can raise. *)
Definition handler_result (cmd arg : str) : Exception + unit :=
  if str_eqb cmd (py "DELAY") then
    match int arg with
    | inr ms =>
        match bytes_repeat (zeros 8) (Z.max 1 ((ms + 10) / 12)) with
        | inr _ => inr tt
        | inl e => inl e
        end
    | inl e => inl e
    end
  else inr tt.

(** The command word and the argument the loop extracts from a line, when
    the line is neither blank nor a comment. *)
Definition command_of (line : str) : option (str * str) :=
  let line := strip line in
  match line with
  | [] => None
  | _ =>
      if startswith_any line COMMENT_PREFIXES then None
      else
        let parts := split_maxsplit1 line in
        match parts with
        | [] => None
        | part0 :: _ =>
            Some (upper part0,
                  if (1 <? length parts)%nat
                  then strip (nth 1 parts []) else [])
        end
  end.

(** The diagnostic printed for line [nr], of text [line], on [e]. *)
Definition mk_diag (nr : Z) (line : str) (e : Exception) : Diagnostic :=
  {| diag_line_nr := nr; diag_line := line; diag_error := e |}.

(** The state after one more line. *)
Definition after (st : State) (line : str) : State :=
  match command_of line with
  | None =>
      {| binary := st.(binary); line_nr := st.(line_nr) + 1;
         stdout := st.(stdout) |}
  | Some (cmd, arg) =>
      {| binary := st.(binary) ++ handler_bytes cmd arg;
         line_nr := st.(line_nr) + 1;
         stdout := st.(stdout) ++
           match handler_result cmd arg with
           | inl e => [mk_diag (st.(line_nr) + 1) (strip line) e]
           | inr _ => []
           end |}
  end.

(** A line compiled on its own, from the initial state. *)
Definition alone (line : str) : State :=
  match loop_body initial line with
  | inr st => st
  | inl _ => initial
  end.

(** The bytes a line contributes. *)
Definition line_bytes (line : str) : bytearray := binary (alone line).

(** The exceptions caught while compiling a line. *)
Definition line_errors (line : str) : list Exception :=
  map diag_error (stdout (alone line)).

(** The diagnostics of the lines numbered from [nr]: one for each caught
    exception, with the number of the line and its stripped text. *)
Fixpoint diagnostics (nr : Z) (lines : list str) : list Diagnostic :=
  match lines with
  | [] => []
  | line :: lines' =>
      map (mk_diag nr (strip line)) (line_errors line) ++
      diagnostics (nr + 1) lines'
  end.

(** The first whitespace-delimited word of a line. *)
Definition first_word (line : str) : option str :=
  hd_error (split_maxsplit1 (strip line)).

(** The mask a token of a combo names, if any. *)
Definition token_mods (p : str) : list Z :=
  match dict_lookup MODIFIERS p with
  | Some m => [m]
  | None => []
  end.

(** A token that names a modifier is never looked up as a key. *)
Definition token_keys (p : str) : list Z :=
  match dict_lookup MODIFIERS p with
  | Some _ => []
  | None =>
      match dict_lookup KEYMAP p with
      | Some k => [k]
      | None => []
      end
  end.

(** The tokens of a combo: split at the hyphens, stripped, in lower case. *)
Definition tokens (key_str : str) : list str :=
  map strip (split_on HYPHEN [] (lower key_str)).

(** The number of zero reports of a delay of [ms] milliseconds. *)
Definition delay_reports (ms : Z) : Z := Z.max 1 ((ms + 10) / 12).

End Vocabulary.

(** ** The caller: [DuckyEncoderWindow.compile_and_save]

    The method reads the editor, compiles, asks for a file name and hands
    the bytes to [write_bytes].  The model follows it up to that call:
    [path] is the file name the save dialog returns (empty when it is
    cancelled), and the outcome names the branch taken.  [WriteBytes path
    data size] stands for the call [Path(path).write_bytes(data)], [size]
    being the number the method has computed for its messages; what the
    file system does with the call, the Qt calls themselves, the status line
    and [last_dir] are outside the model. *)

(** [s.rstrip()] for the whitespace predicate [sp]. *)
Definition rstrip_by (sp : char -> bool) (s : str) : str :=
  rev (dropwhile sp (rev s)).

Inductive SaveOutcome : Type :=
| Leer
| Abgebrochen
| WriteBytes (path : str) (data : bytearray) (size : nat)
| Fehler (e : Exception).

Section Caller.

Context {U : Unicode}.

Definition rstrip (s : str) : str := rstrip_by isspace s.

(** The branch taken, and what the compiler printed. *)
Definition compile_and_save (plain_text path : str)
  : SaveOutcome * list Diagnostic :=
  let source := rstrip plain_text in
  match strip source with
  | [] => (Leer, [])
  | _ =>
      match compile_duckyscript source with
      | inl e => (Fehler e, [])
      | inr (bin_data, printed) =>
          let size := length bin_data in
          match path with
          | [] => (Abgebrochen, printed)
          | _ => (WriteBytes path bin_data size, printed)
          end
      end
  end.

End Caller.

(** ** Further vocabulary *)

(** What follows a line boundary [c]: the line feed after a carriage return
    belongs to the boundary. *)
Definition skip_lf (c : char) (s : str) : str :=
  match s with
  | d :: s' => if N.eqb c 13 && N.eqb d 10 then s' else s
  | [] => s
  end.

(** Lines that agree up to surrounding whitespace, the second list going on
    with blank lines. *)
Inductive same_lines (sp : char -> bool) : list str -> list str -> Prop :=
| same_blank ls' :
    Forall (fun l => strip_by sp l = []) ls' -> same_lines sp [] ls'
| same_cons l l' ls ls' :
    strip_by sp l = strip_by sp l' -> same_lines sp ls ls' ->
    same_lines sp (l :: ls) (l' :: ls').

(** A group of the stream: one all-zero report, or a key-down report with
    at least one key followed by two all-zero reports. *)
Definition is_group (g : bytearray) : Prop :=
  g = zeros 8 \/
  exists m k ks, is_mask m /\ Forall is_keycode (k :: ks) /\
                 g = press_release m (k :: ks).

(** A stream made of groups. *)
Definition grouped (bs : bytearray) : Prop :=
  exists groups, bs = concat groups /\ Forall is_group groups.

(** The characters the [STRING] handler resolves to a key on ASCII text:
    letters, digits, the space, the ten unshifted punctuation keys of
    [KEYMAP], and the line feed. *)
Definition typeable (ch : char) : bool :=
  is_lower_letter ch || is_upper_letter ch || between 48 57 ch ||
  in_str ch (py " -[];'`,./" ++ [92%N; NEWLINE]).

(** The [STRING] handler without its newline case: the key, the modifier
    and the bytes of a character that is not a line feed. *)
Definition plain_key {U : Unicode} (ch : char) : Z :=
  if N.eqb ch SPACE then 0x2C else dict_get KEYMAP (lower [ch]) 0.

Definition plain_mod {U : Unicode} (ch : char) : Z :=
  if isupper [ch] || in_str ch SHIFTED then 0x02 else 0.

Definition plain_group {U : Unicode} (ch : char) : bytearray :=
  if Z.eqb (plain_key ch) 0 then []
  else [plain_mod ch; 0; plain_key ch; 0; 0; 0; 0; 0] ++ zeros 16.

(** A diagnostic with its line number moved by [k]. *)
Definition shift_diag (k : Z) (d : Diagnostic) : Diagnostic :=
  {| diag_line_nr := diag_line_nr d + k; diag_line := diag_line d;
     diag_error := diag_error d |}.

(** A key code of [KEYMAP]: between [0x04] and [0x52]. *)
Definition in_keymap_range (k : Z) : Prop := 0x04 <= k <= 0x52.

(** ** The tables hold masks and key codes *)

Lemma dict_lookup_In d k v :
  dict_lookup d k = Some v -> In v (map snd d).
Proof.
  induction d as [|[k' v'] d IH]; simpl; [discriminate|].
  destruct (str_eq_dec k k'); intros H.
  - left. congruence.
  - right. auto.
Qed.

#[global] Arguments dict_lookup : simpl never.

Lemma MODIFIERS_mask p m : dict_lookup MODIFIERS p = Some m -> is_mask m.
Proof.
  intros H. apply dict_lookup_In in H. unfold is_mask.
  simpl in H. repeat (destruct H as [<-|H]; [lia|]). destruct H.
Qed.

Lemma KEYMAP_keycode p k : dict_lookup KEYMAP p = Some k -> is_keycode k.
Proof.
  intros H. apply dict_lookup_In in H. unfold is_keycode.
  simpl in H. repeat (destruct H as [<-|H]; [lia|]). destruct H.
Qed.

Lemma lor_mask a b : is_mask a -> is_mask b -> is_mask (Z.lor a b).
Proof.
  unfold is_mask. intros [Ha0 Ha] [Hb0 Hb]. split.
  - apply Z.lor_nonneg. split; assumption.
  - assert (Hs : Z.shiftr (Z.lor a b) 4 = 0).
    { rewrite Z.shiftr_lor, !Z.shiftr_div_pow2 by lia.
      rewrite (Z.div_small a), (Z.div_small b) by (simpl; lia).
      reflexivity. }
    rewrite Z.shiftr_div_pow2 in Hs by lia.
    assert (H0 : 0 <= Z.lor a b) by (apply Z.lor_nonneg; split; assumption).
    apply Z.div_small_iff in Hs; [|simpl; lia].
    simpl in Hs. lia.
Qed.

Lemma mask_high_bits m : is_mask m -> Z.land m 0xF0 = 0.
Proof.
  unfold is_mask. intros H.
  assert (Hm : m = 0 \/ m = 1 \/ m = 2 \/ m = 3 \/ m = 4 \/ m = 5 \/ m = 6 \/
               m = 7 \/ m = 8 \/ m = 9 \/ m = 10 \/ m = 11 \/ m = 12 \/
               m = 13 \/ m = 14 \/ m = 15) by lia.
  repeat (destruct Hm as [->|Hm]; [reflexivity|]). subst m. reflexivity.
Qed.

(** ** Byte stores *)

Lemma setitem_ok packet i v :
  is_byte v -> (i < length packet)%nat ->
  setitem packet i v = inr (list_set packet i v).
Proof.
  unfold is_byte, setitem. intros Hv Hi.
  destruct (Z.leb_spec 0 v); [|lia].
  destruct (Z.ltb_spec v 256); [|lia]. simpl.
  destruct (Nat.ltb_spec i (length packet)); [reflexivity|lia].
Qed.

Lemma list_set_app pre x l v :
  list_set (pre ++ x :: l) (length pre) v = pre ++ v :: l.
Proof.
  induction pre as [|y pre IH]; simpl; [reflexivity|]. now rewrite IH.
Qed.

Lemma store_keys_ok ks : forall pre i n,
  length pre = (2 + i)%nat -> (length ks <= n)%nat -> Forall is_byte ks ->
  store_keys (pre ++ zeros n) i ks = inr (pre ++ ks ++ zeros (n - length ks)).
Proof.
  induction ks as [|k ks IH]; intros pre i n Hpre Hn Hks; simpl.
  - now rewrite Nat.sub_0_r.
  - inversion Hks as [|? ? Hk Hks']; subst.
    simpl in Hn. destruct n as [|n]; [lia|].
    unfold zeros at 1. simpl repeat.
    rewrite setitem_ok; [|assumption|rewrite length_app; simpl; lia].
    replace (S (S i)) with (length pre) by assumption.
    rewrite list_set_app.
    replace (pre ++ k :: repeat 0 n) with ((pre ++ [k]) ++ zeros n)
      by (rewrite <- app_assoc; reflexivity).
    rewrite IH; [|rewrite length_app; simpl; lia|lia|assumption].
    rewrite <- app_assoc. reflexivity.
Qed.

Lemma zeros_app n m : zeros (n + m) = zeros n ++ zeros m.
Proof. apply repeat_app. Qed.

Lemma bytes_mul_zero_frames n :
  bytes_mul (bytes_mul [0] 8) n = zeros (8 * Z.to_nat n).
Proof.
  unfold bytes_mul at 1. change (bytes_mul [0] 8) with (zeros 8).
  induction (Z.to_nat n) as [|k IH]; [reflexivity|].
  replace (8 * S k)%nat with (8 + 8 * k)%nat by lia.
  rewrite zeros_app. simpl repeat. simpl concat. now rewrite IH.
Qed.

(** ** Handlers that only append *)

Lemma appends_ret {A} (a : A) : appends (ret a) (inr a) [].
Proof. intros b. unfold ret. now rewrite app_nil_r. Qed.

Lemma appends_lift {A} (r : Exception + A) : appends (lift r) r [].
Proof. intros b. unfold lift. now rewrite app_nil_r. Qed.

Lemma appends_iadd data : appends (iadd data) (inr tt) data.
Proof. intros b. reflexivity. Qed.

Lemma appends_bind {A B} (m : M A) (k : A -> M B) a bs r bs' :
  appends m (inr a) bs -> appends (k a) r bs' ->
  appends (bind m k) r (bs ++ bs').
Proof.
  intros Hm Hk b. unfold bind. rewrite Hm, Hk. now rewrite app_assoc.
Qed.

Lemma appends_bind_raise {A B} (m : M A) (k : A -> M B) e bs :
  appends m (inl e) bs -> appends (bind m k) (inl e) bs.
Proof. intros Hm b. unfold bind. now rewrite Hm. Qed.

Lemma appends_for_each {A} (body : A -> M unit) (g : A -> bytearray) xs :
  (forall x, appends (body x) (inr tt) (g x)) ->
  appends (for_each xs body) (inr tt) (flat_map g xs).
Proof.
  intros Hbody. induction xs as [|x xs IH]; simpl.
  - apply appends_ret.
  - eapply appends_bind; [apply Hbody|exact IH].
Qed.

Lemma appends_bind_pure {A B} (m : M A) (k : A -> M B) a r bs :
  appends m (inr a) [] -> appends (k a) r bs -> appends (bind m k) r bs.
Proof. intros Hm Hk. exact (appends_bind m k a [] r bs Hm Hk). Qed.

(** A step that appends nothing: a [lift] or a [ret]. *)
Ltac pure_step :=
  eapply appends_bind_pure;
  [first [apply appends_lift | apply appends_ret] | cbv beta iota].

Lemma keycode_nonzero k : is_keycode k -> (k =? 0) = false.
Proof. unfold is_keycode. intros H. apply Z.eqb_neq. lia. Qed.

Lemma keycode_byte k : is_keycode k -> is_byte k.
Proof. unfold is_keycode, is_byte. lia. Qed.

Lemma mask_byte m : is_mask m -> is_byte m.
Proof. unfold is_mask, is_byte. lia. Qed.

(** The key-down report of one key, then the release. *)
Lemma emit_appends m k :
  is_mask m -> is_keycode k ->
  appends (packet <- lift (setitem (zeros 8) 0 m) ;;
           packet <- lift (setitem packet 2 k) ;;
           iadd packet ;;; iadd (bytes_mul [0] 16))
          (inr tt) (press_release m [k]).
Proof.
  intros Hm Hk b. unfold bind, lift.
  rewrite setitem_ok; [|apply mask_byte; assumption|simpl; lia].
  simpl list_set.
  rewrite setitem_ok; [|apply keycode_byte; assumption|simpl; lia].
  simpl list_set. unfold iadd. rewrite <- app_assoc. reflexivity.
Qed.

Section Handlers.

Context {U : Unicode}.

(** *** The repetition of the [DELAY] handler *)

Lemma bytes_repeat_zeros n data :
  1 <= n -> bytes_repeat (zeros 8) n = inr data ->
  data = zeros (8 * Z.to_nat n).
Proof.
  intros Hn. unfold bytes_repeat.
  destruct (Z.leb_spec n 0); [lia|].
  destruct (Z.eqb_spec n 1) as [->|_].
  - intros Heq. inversion Heq. reflexivity.
  - destruct (repeat_error (Z.of_nat (length (zeros 8)) * n)); [discriminate|].
    intros Heq. inversion Heq. apply bytes_mul_zero_frames.
Qed.

Lemma bytes_repeat_one b : bytes_repeat b 1 = inr b.
Proof. reflexivity. Qed.

Lemma bytes_repeat_built n :
  1 <= n -> (n = 1 \/ repeat_error (8 * n) = None) ->
  bytes_repeat (zeros 8) n = inr (zeros (8 * Z.to_nat n)).
Proof.
  intros Hn Hb. unfold bytes_repeat.
  destruct (Z.leb_spec n 0); [lia|].
  destruct (Z.eqb_spec n 1) as [->|Hne]; [reflexivity|].
  destruct Hb as [Hb|Hb]; [contradiction|].
  change (Z.of_nat (length (zeros 8))) with 8. rewrite Hb.
  now rewrite <- bytes_mul_zero_frames.
Qed.

Lemma bytes_repeat_raises n e :
  2 <= n -> repeat_error (8 * n) = Some e ->
  bytes_repeat (zeros 8) n = inl e.
Proof.
  intros Hn Hb. unfold bytes_repeat.
  destruct (Z.leb_spec n 0); [lia|].
  destruct (Z.eqb_spec n 1); [lia|].
  change (Z.of_nat (length (zeros 8))) with 8. now rewrite Hb.
Qed.

Lemma bytes_repeat_raised n e :
  bytes_repeat (zeros 8) n = inl e ->
  2 <= n /\ repeat_error (8 * n) = Some e.
Proof.
  unfold bytes_repeat.
  destruct (Z.leb_spec n 0); [discriminate|].
  destruct (Z.eqb_spec n 1); [discriminate|].
  change (Z.of_nat (length (zeros 8))) with 8.
  destruct (repeat_error (8 * n)) as [e'|]; [|discriminate].
  intros Heq. inversion Heq. split; [lia|reflexivity].
Qed.

(** *** [parse_key] *)

Lemma parse_key_step_inv acc p :
  is_mask (fst acc) -> Forall is_keycode (snd acc) ->
  is_mask (fst (parse_key_step acc p)) /\
  Forall is_keycode (snd (parse_key_step acc p)).
Proof.
  destruct acc as [m ks]. unfold parse_key_step. cbn [fst snd].
  intros Hm Hks.
  destruct (dict_lookup MODIFIERS p) as [m'|] eqn:Hmod; cbn [fst snd].
  - split; [|assumption]. apply lor_mask; [assumption|].
    eapply MODIFIERS_mask; eassumption.
  - destruct (dict_lookup KEYMAP p) as [k|] eqn:Hkey; cbn [fst snd];
      split; auto.
    apply Forall_app. split; [assumption|].
    constructor; [|constructor]. eapply KEYMAP_keycode; eassumption.
Qed.

Lemma parse_key_fold_inv parts : forall acc,
  is_mask (fst acc) -> Forall is_keycode (snd acc) ->
  is_mask (fst (fold_left parse_key_step parts acc)) /\
  Forall is_keycode (snd (fold_left parse_key_step parts acc)).
Proof.
  induction parts as [|p parts IH]; intros acc Hm Hks; simpl; [auto|].
  destruct (parse_key_step_inv acc p Hm Hks). auto.
Qed.

Lemma parse_key_inv key_str :
  is_mask (fst (parse_key key_str)) /\
  Forall is_keycode (snd (parse_key key_str)).
Proof.
  unfold parse_key. apply parse_key_fold_inv; simpl.
  - unfold is_mask. lia.
  - constructor.
Qed.

Lemma merged_inv cmd arg :
  is_mask (fst (merged cmd arg)) /\ Forall is_keycode (snd (merged cmd arg)).
Proof.
  unfold merged.
  destruct (parse_key_inv cmd) as [Hm Hk].
  destruct (parse_key cmd) as [m ks]. simpl in Hm, Hk.
  destruct arg as [|c arg]; simpl; [auto|].
  destruct (parse_key_inv (c :: arg)) as [Hm2 Hk2].
  destruct (parse_key (c :: arg)) as [m2 ks2]. simpl in *.
  split; [apply lor_mask; assumption|].
  apply Forall_app. auto.
Qed.

(** *** The [STRING] handler, character by character *)

Lemma string_char_appends ch :
  appends (string_char ch) (inr tt) (string_group ch).
Proof.
  unfold string_char, string_group, string_key, string_mod, dict_get.
  change (getitem MODIFIERS (py "shift")) with (@inr Exception Z 0x02).
  change (getitem KEYMAP (py "space")) with (@inr Exception Z 0x2C).
  change (getitem KEYMAP (py "enter")) with (@inr Exception Z 0x28).
  assert (M0 : is_mask 0) by (unfold is_mask; lia).
  assert (M2 : is_mask 2) by (unfold is_mask; lia).
  assert (K1 : is_keycode 0x28) by (unfold is_keycode; lia).
  assert (K2 : is_keycode 0x2C) by (unfold is_keycode; lia).
  destruct (N.eqb ch NEWLINE), (N.eqb ch SPACE),
    (isupper [ch] || in_str ch SHIFTED),
    (dict_lookup KEYMAP (lower [ch])) as [k|] eqn:Hk;
    try (apply KEYMAP_keycode in Hk;
         pose proof (keycode_nonzero k Hk) as Hk0);
    do 3 pure_step;
    try (change (40 =? 0) with false); try (change (44 =? 0) with false);
    try (change (0 =? 0) with true); try rewrite Hk0; cbv iota;
    first [apply appends_ret | apply emit_appends; assumption].
Qed.

(** *** The body of the [try] block *)

Lemma Forall_take {A} (P : A -> Prop) n : forall l,
  Forall P l -> Forall P (firstn n l).
Proof.
  induction n as [|n IH]; intros l Hl; simpl; [constructor|].
  destruct Hl; constructor; auto.
Qed.

Lemma combo_appends m ks :
  is_mask m -> Forall is_keycode ks ->
  appends (match ks with
           | [] => ret tt
           | _ =>
               packet <- lift (setitem (zeros 8) 0 m) ;;
               packet <- lift (store_keys packet 0 (firstn 6 ks)) ;;
               iadd (packet ++ bytes_mul [0] 16)
           end)
          (inr tt)
          (match ks with [] => [] | _ => press_release m ks end).
Proof.
  intros Hm Hks. destruct ks as [|k ks]; [apply appends_ret|].
  set (keys := k :: ks) in *. intros b. unfold bind, lift.
  rewrite setitem_ok; [|apply mask_byte; assumption|simpl; lia].
  change (list_set (zeros 8) 0 m) with ([m; 0] ++ zeros 6).
  rewrite store_keys_ok.
  - unfold iadd, press_release, key_down.
    rewrite <- !app_assoc. reflexivity.
  - reflexivity.
  - apply firstn_le_length.
  - apply Forall_take. revert Hks. apply Forall_impl. exact keycode_byte.
Qed.

Lemma try_body_appends cmd arg :
  appends (try_body cmd arg) (handler_result cmd arg) (handler_bytes cmd arg).
Proof.
  unfold try_body, handler_result, handler_bytes.
  destruct (str_eqb cmd (py "DELAY")).
  { destruct (int arg) as [e|ms].
    - apply appends_bind_raise, appends_lift.
    - pure_step. change (bytes_mul [0] 8) with (zeros 8).
      destruct (bytes_repeat (zeros 8) (Z.max 1 ((ms + 10) / 12))) as [e|data].
      + apply appends_bind_raise, appends_lift.
      + pure_step. apply appends_iadd. }
  destruct (str_eqb cmd (py "STRING")).
  { apply appends_for_each. intros ch. apply string_char_appends. }
  change [py "ENTER"; py "TAB"; py "ESC"; py "BACKSPACE"] with KEY_COMMANDS.
  destruct (in_strs cmd KEY_COMMANDS).
  { unfold dict_get.
    destruct (dict_lookup KEYMAP (lower cmd)) as [k|] eqn:Hk.
    - apply KEYMAP_keycode in Hk. rewrite (keycode_nonzero k Hk).
      intros b. unfold bind, lift.
      rewrite setitem_ok; [|apply keycode_byte; assumption|simpl; lia].
      reflexivity.
    - change (0 =? 0) with true. cbv iota. apply appends_ret. }
  destruct (merged_inv cmd arg) as [Hm Hk]. unfold merged in *.
  destruct (parse_key cmd) as [m ks].
  destruct arg as [|c arg].
  - cbn [fst snd] in Hm, Hk. apply combo_appends; assumption.
  - destruct (parse_key (c :: arg)) as [m2 ks2].
    cbn [fst snd] in Hm, Hk. apply combo_appends; assumption.
Qed.

End Handlers.

(** ** Streams of reports *)

Lemma frames_app a b : frames a -> frames b -> frames (a ++ b).
Proof.
  intros Ha Hb. induction Ha as [|r bs Hr _ IH]; [exact Hb|].
  rewrite <- app_assoc. now constructor.
Qed.

Lemma zeros_report : is_report (zeros 8).
Proof.
  exists 0, (zeros 6). repeat split; try reflexivity; try lia.
  apply Forall_forall. intros x Hx. apply repeat_spec in Hx. subst x.
  unfold is_byte. lia.
Qed.

Lemma frames_zeros n : frames (zeros (8 * n)).
Proof.
  induction n as [|n IH]; [constructor|].
  replace (8 * S n)%nat with (8 + 8 * n)%nat by lia.
  rewrite zeros_app. constructor; [apply zeros_report|exact IH].
Qed.

Lemma key_down_report m ks :
  is_mask m -> Forall is_keycode ks -> is_report (key_down m ks).
Proof.
  intros Hm Hks. exists m, (firstn 6 ks ++ zeros (6 - length (firstn 6 ks))).
  split; [reflexivity|]. split; [|split; [assumption|]].
  - rewrite length_app. unfold zeros. rewrite repeat_length.
    pose proof (firstn_le_length 6 ks). lia.
  - apply Forall_app. split.
    + apply Forall_take. revert Hks. apply Forall_impl. exact keycode_byte.
    + apply Forall_forall. intros x Hx. apply repeat_spec in Hx. subst x.
      unfold is_byte. lia.
Qed.

Lemma frames_press_release m ks :
  is_mask m -> Forall is_keycode ks -> frames (press_release m ks).
Proof.
  intros Hm Hks. unfold press_release. constructor.
  - now apply key_down_report.
  - exact (frames_zeros 2).
Qed.

Lemma frames_flat_map {A} (g : A -> bytearray) xs :
  (forall x, frames (g x)) -> frames (flat_map g xs).
Proof.
  intros Hg. induction xs as [|x xs IH]; simpl; [constructor|].
  apply frames_app; auto.
Qed.

Lemma frames_length bs : frames bs -> exists n, length bs = (8 * n)%nat.
Proof.
  induction 1 as [|r bs (m & ks & -> & Hlen & _) _ [n IH]].
  - exists 0%nat. reflexivity.
  - exists (S n). rewrite length_app. simpl. lia.
Qed.

Lemma frames_nth bs : frames bs -> forall k, (8 * k < length bs)%nat ->
  nth (8 * k + 1) bs 0 = 0 /\ is_mask (nth (8 * k) bs 0).
Proof.
  induction 1 as [|r bs (m & ks & -> & Hlen & Hm & _) _ IH]; intros k Hk.
  - simpl in Hk. lia.
  - destruct k as [|k].
    + simpl. auto.
    + assert (Hr : length (m :: 0 :: ks) = 8%nat) by (simpl; lia).
      rewrite length_app, Hr in Hk.
      rewrite !app_nth2 by (rewrite Hr; lia). rewrite Hr.
      replace (8 * S k + 1 - 8)%nat with (8 * k + 1)%nat by lia.
      replace (8 * S k - 8)%nat with (8 * k)%nat by lia.
      apply IH. lia.
Qed.

(** ** Leading whitespace and the words of a line *)

Lemma dropwhile_head f s c r : dropwhile f s = c :: r -> f c = false.
Proof.
  induction s as [|x s IH]; simpl; [discriminate|].
  destruct (f x) eqn:Hx; [exact IH|]. intros H. now inversion H; subst.
Qed.

Lemma dropwhile_suffix f s : exists pre, s = pre ++ dropwhile f s.
Proof.
  induction s as [|x s [pre IH]]; simpl.
  - exists []. reflexivity.
  - destruct (f x).
    + exists (x :: pre). simpl. now rewrite <- IH.
    + exists []. reflexivity.
Qed.

Lemma strip_by_head sp s c r : strip_by sp s = c :: r -> sp c = false.
Proof.
  unfold strip_by. intros H.
  destruct (dropwhile_suffix sp (rev (dropwhile sp s))) as [pre Hpre].
  apply (f_equal (@rev char)) in Hpre.
  rewrite rev_involutive, rev_app_distr, H in Hpre.
  simpl in Hpre. eapply dropwhile_head. exact Hpre.
Qed.

Lemma split_maxsplit1_by_head sp s c r :
  sp c = false -> s = c :: r ->
  exists w rest, split_maxsplit1_by sp s = w :: rest.
Proof.
  intros Hc ->. unfold split_maxsplit1_by. simpl dropwhile. rewrite Hc.
  destruct (break sp (c :: r)) as [w r'].
  destruct (dropwhile sp r'); eauto.
Qed.

(** ** The compilation loop *)

Section Loop.

Context {U : Unicode}.

(** No exception leaves an iteration of the loop. *)
Lemma loop_body_after st line : loop_body st line = inr (after st line).
Proof.
  unfold loop_body, after, command_of. cbv zeta.
  destruct (strip line) as [|c l] eqn:Hl; [reflexivity|].
  destruct (startswith_any (c :: l) COMMENT_PREFIXES); [reflexivity|].
  destruct (split_maxsplit1_by_head isspace (c :: l) c l) as (w & rest & Hs);
    [apply (strip_by_head isspace line c l Hl)|reflexivity|].
  unfold split_maxsplit1. rewrite Hs. cbn [nth_error].
  rewrite (try_body_appends (upper w) _ (binary st)).
  destruct (handler_result (upper w) _); [reflexivity|].
  now rewrite app_nil_r.
Qed.

Lemma for_lines_after lines : forall st,
  for_lines lines st = inr (fold_left after lines st).
Proof.
  induction lines as [|line lines IH]; intros st; simpl; [reflexivity|].
  rewrite loop_body_after. apply IH.
Qed.

Lemma alone_after line : alone line = after initial line.
Proof. unfold alone. now rewrite loop_body_after. Qed.

Lemma line_bytes_handler line :
  line_bytes line =
  match command_of line with
  | Some (cmd, arg) => handler_bytes cmd arg
  | None => []
  end.
Proof.
  unfold line_bytes. rewrite alone_after. unfold after.
  destruct (command_of line) as [[cmd arg]|]; reflexivity.
Qed.

Lemma line_errors_handler line :
  line_errors line =
  match command_of line with
  | Some (cmd, arg) =>
      match handler_result cmd arg with inl e => [e] | inr _ => [] end
  | None => []
  end.
Proof.
  unfold line_errors. rewrite alone_after. unfold after.
  destruct (command_of line) as [[cmd arg]|]; [|reflexivity].
  destruct (handler_result cmd arg); reflexivity.
Qed.

Lemma after_alone st line :
  after st line =
  {| binary := binary st ++ line_bytes line;
     line_nr := line_nr st + 1;
     stdout := stdout st ++
               map (mk_diag (line_nr st + 1) (strip line)) (line_errors line) |}.
Proof.
  rewrite line_bytes_handler, line_errors_handler. unfold after.
  destruct (command_of line) as [[cmd arg]|].
  - destruct (handler_result cmd arg); reflexivity.
  - simpl. now rewrite !app_nil_r.
Qed.

Lemma fold_after lines : forall st,
  fold_left after lines st =
  {| binary := binary st ++ flat_map line_bytes lines;
     line_nr := line_nr st + Z.of_nat (length lines);
     stdout := stdout st ++ diagnostics (line_nr st + 1) lines |}.
Proof.
  induction lines as [|line lines IH]; intros st.
  - simpl. rewrite !app_nil_r, Z.add_0_r. now destruct st.
  - cbn [fold_left]. rewrite IH, after_alone. cbn [binary line_nr stdout].
    cbn [flat_map diagnostics]. rewrite <- !app_assoc. f_equal.
    cbn [length]. lia.
Qed.

Lemma compile_duckyscript_lines text :
  compile_duckyscript text =
  inr (flat_map line_bytes (splitlines text),
       diagnostics 1 (splitlines text)).
Proof.
  unfold compile_duckyscript. rewrite for_lines_after, fold_after.
  reflexivity.
Qed.

Lemma handler_bytes_frames cmd arg : frames (handler_bytes cmd arg).
Proof.
  unfold handler_bytes.
  destruct (str_eqb cmd (py "DELAY")).
  { destruct (int arg) as [e|ms]; [constructor|].
    destruct (bytes_repeat (zeros 8) (Z.max 1 ((ms + 10) / 12)))
      as [e|data] eqn:Hr; [constructor|].
    apply bytes_repeat_zeros in Hr; [|lia]. subst data. apply frames_zeros. }
  destruct (str_eqb cmd (py "STRING")).
  { apply frames_flat_map. intros ch. unfold string_group.
    destruct (Z.eqb_spec (string_key ch) 0) as [|Hk]; [constructor|].
    apply frames_press_release.
    - unfold string_mod, is_mask.
      destruct (N.eqb ch NEWLINE); [lia|].
      destruct (isupper [ch] || in_str ch SHIFTED); lia.
    - constructor; [|constructor]. revert Hk.
      unfold string_key, dict_get, is_keycode.
      destruct (N.eqb ch NEWLINE); [lia|].
      destruct (N.eqb ch SPACE); [lia|].
      destruct (dict_lookup KEYMAP (lower [ch])) as [k|] eqn:Hk; [|lia].
      intros _. exact (KEYMAP_keycode _ _ Hk). }
  destruct (in_strs cmd KEY_COMMANDS).
  { destruct (dict_lookup KEYMAP (lower cmd)) as [k|] eqn:Hk; [|constructor].
    apply frames_press_release; [unfold is_mask; lia|].
    constructor; [|constructor]. exact (KEYMAP_keycode _ _ Hk). }
  destruct (merged_inv cmd arg) as [Hm Hk].
  destruct (merged cmd arg) as [m ks]. cbn [fst snd] in Hm, Hk.
  destruct ks; [constructor|]. now apply frames_press_release.
Qed.

Lemma line_bytes_frames line : frames (line_bytes line).
Proof.
  rewrite line_bytes_handler.
  destruct (command_of line) as [[cmd arg]|]; [|constructor].
  apply handler_bytes_frames.
Qed.

Lemma handler_raise_no_bytes cmd arg e :
  handler_result cmd arg = inl e -> handler_bytes cmd arg = [].
Proof.
  unfold handler_result, handler_bytes.
  destruct (str_eqb cmd (py "DELAY")); [|discriminate].
  destruct (int arg) as [e'|ms]; [reflexivity|].
  destruct (bytes_repeat (zeros 8) (Z.max 1 ((ms + 10) / 12)));
    [reflexivity|discriminate].
Qed.

End Loop.

(** ** Further lemmas on lines and key combos *)

Section Lines.

Context {U : Unicode}.

Lemma loop_body_command st line cmd arg :
  command_of line = Some (cmd, arg) ->
  loop_body st line =
  inr {| binary := binary st ++ handler_bytes cmd arg;
         line_nr := line_nr st + 1;
         stdout := stdout st ++
           match handler_result cmd arg with
           | inl e => [mk_diag (line_nr st + 1) (strip line) e]
           | inr _ => []
           end |}.
Proof.
  intros H. rewrite loop_body_after. unfold after. now rewrite H.
Qed.

Lemma loop_body_skip st line :
  command_of line = None ->
  loop_body st line =
  inr {| binary := binary st; line_nr := line_nr st + 1;
         stdout := stdout st |}.
Proof.
  intros H. rewrite loop_body_after. unfold after. now rewrite H.
Qed.

Lemma break_app f s : s = fst (break f s) ++ snd (break f s).
Proof.
  induction s as [|c s IH]; simpl; [reflexivity|].
  destruct (f c); [reflexivity|].
  destruct (break f s) as [w r]. simpl in *. now rewrite <- IH.
Qed.

Lemma startswith_app p r : startswith (p ++ r) p = true.
Proof.
  induction p as [|c p IH]; simpl; [reflexivity|].
  now rewrite N.eqb_refl, IH.
Qed.

Lemma first_word_prefix line w :
  first_word line = Some w -> startswith (strip line) w = true.
Proof.
  unfold first_word, split_maxsplit1, split_maxsplit1_by, strip.
  destruct (strip_by isspace line) as [|c l] eqn:Hl; [discriminate|].
  pose proof (strip_by_head _ _ _ _ Hl) as Hc.
  simpl dropwhile. rewrite Hc.
  pose proof (break_app isspace (c :: l)) as Happ.
  destruct (break isspace (c :: l)) as [w' r]. simpl fst in Happ.
  simpl snd in Happ.
  destruct (dropwhile isspace r); simpl; intros H; inversion H; subst w';
    rewrite Happ; apply startswith_app.
Qed.

Lemma comment_prefix_skip line p :
  In p COMMENT_PREFIXES -> startswith (strip line) p = true ->
  command_of line = None.
Proof.
  intros Hin Hp. unfold command_of. cbv zeta.
  destruct (strip line) as [|c l]; [reflexivity|].
  replace (startswith_any (c :: l) COMMENT_PREFIXES) with true;
    [reflexivity|].
  symmetry. apply existsb_exists. exists p. auto.
Qed.

Lemma parse_key_fold parts : forall m ks,
  fold_left parse_key_step parts (m, ks) =
  (fold_left Z.lor (flat_map token_mods parts) m,
   ks ++ flat_map token_keys parts).
Proof.
  induction parts as [|p parts IH]; intros m ks; simpl.
  - now rewrite app_nil_r.
  - unfold token_mods at 1, token_keys at 1.
    destruct (dict_lookup MODIFIERS p) as [m'|].
    + simpl. apply IH.
    + destruct (dict_lookup KEYMAP p) as [k|]; simpl.
      * rewrite IH, <- app_assoc. reflexivity.
      * apply IH.
Qed.

End Lines.

(** A first word that is [REM] in another letter case does not start with
    a comment prefix: the loop extracts a command word from the line. *)
Lemma upper_char_inv a k :
  upper_char a = k -> a = k \/ a = (k + 32)%N.
Proof.
  unfold upper_char, is_lower_letter, between.
  destruct (N.leb 97 a && N.leb a 122) eqn:E; intros H; [|now left].
  apply andb_true_iff in E. destruct E as [E _]. apply N.leb_le in E.
  right. lia.
Qed.

Lemma startswith_split s p :
  startswith s p = true -> exists r, s = p ++ r.
Proof.
  revert s. induction p as [|c p IH]; intros s H; [exists s; reflexivity|].
  destruct s as [|x s]; [discriminate|]. simpl in H.
  apply andb_true_iff in H. destruct H as [Hx Hs].
  apply N.eqb_eq in Hx. subst x. destruct (IH s Hs) as [r ->].
  exists r. reflexivity.
Qed.

Lemma rem_other_case_dispatched line w :
  @first_word ascii_unicode line = Some w ->
  ascii_upper w = py "REM" -> w <> py "REM" ->
  exists arg, @command_of ascii_unicode line = Some (py "REM", arg).
Proof.
  intros Hw Hup Hne.
  pose proof (@first_word_prefix ascii_unicode line w Hw) as Hpre.
  apply startswith_split in Hpre. destruct Hpre as [r Hline].
  unfold first_word in Hw. unfold command_of. cbv zeta.
  assert (Hcases : In w [py "REm"; py "ReM"; py "Rem"; py "rEM"; py "rEm";
                         py "reM"; py "rem"]).
  { destruct w as [|a [|b [|c [|d w]]]]; try discriminate Hup.
    unfold ascii_upper in Hup. cbn [map] in Hup. inversion Hup as [[Ha Hb Hc]].
    apply upper_char_inv in Ha. apply upper_char_inv in Hb.
    apply upper_char_inv in Hc.
    destruct Ha as [-> | ->], Hb as [-> | ->], Hc as [-> | ->];
      try (exfalso; apply Hne; reflexivity);
      cbn; tauto. }
  destruct (@split_maxsplit1 ascii_unicode (@strip ascii_unicode line))
    as [|p0 ps] eqn:Hs; [discriminate|].
  cbn [hd_error] in Hw. inversion Hw; subst p0.
  rewrite Hline.
  assert (Hnc : startswith_any (w ++ r) COMMENT_PREFIXES = false).
  { cbn in Hcases.
    repeat (destruct Hcases as [<-|Hcases]; [reflexivity|]).
    destruct Hcases. }
  rewrite Hnc.
  assert (Hnil : w ++ r <> []).
  { cbn in Hcases.
    repeat (destruct Hcases as [<-|Hcases]; [discriminate|]).
    destruct Hcases. }
  destruct (w ++ r) as [|x l] eqn:Hwr; [contradiction|].
  change (@upper ascii_unicode w) with (ascii_upper w).
  rewrite Hup. eexists. reflexivity.
Qed.

(** * The properties of the compiler *)

(** Claim C1, as stated, fails: the argument [10^30] is a non-negative
    integer, but the repetition of that many zero reports does not fit the
    index size; it raises [OverflowError], the line emits no byte and is
    reported. *)
Lemma delay_overflow_counterexample :
  ascii_int (py "1000000000000000000000000000000") = inr (10 ^ 30) /\
  0 <= 10 ^ 30 /\
  compile "DELAY 1000000000000000000000000000000" =
  inr ([], [mk_diag 1 (py "DELAY 1000000000000000000000000000000")
                    OverflowError]).
Proof.
  split; [vm_compute; reflexivity|].
  split; [vm_compute; discriminate|vm_compute; reflexivity].
Qed.

(** Claim C1, amended.  A line [DELAY <ms>] whose argument [int()] reads as
    a non-negative [ms] appends exactly [max(1, (ms + 10) // 12)] all-zero
    8-byte reports and nothing else, wherever the line stands in the script,
    and prints nothing, provided the interpreter can build that many
    reports: the count is 1, or the repetition of [8 * count] bytes does not
    raise.  When the repetition raises ([OverflowError] past the index size,
    [MemoryError] when memory is short) the line appends nothing and is
    reported with that exception.  [DELAY 0], [DELAY 11] and [DELAY 12]
    compile to one zero report, [DELAY 14] to two. *)
Theorem delay_frame_count :
  (forall (U : Unicode) (line arg : str) (ms : Z) (st : State),
      command_of line = Some (py "DELAY", arg) ->
      int arg = inr ms -> 0 <= ms ->
      delay_reports ms = 1 \/ repeat_error (8 * delay_reports ms) = None ->
      loop_body st line =
      inr {| binary := binary st ++ zeros (8 * Z.to_nat (delay_reports ms));
             line_nr := line_nr st + 1;
             stdout := stdout st |}) /\
  (forall (U : Unicode) (line arg : str) (ms : Z) (e : Exception)
          (st : State),
      command_of line = Some (py "DELAY", arg) ->
      int arg = inr ms -> 0 <= ms ->
      2 <= delay_reports ms ->
      repeat_error (8 * delay_reports ms) = Some e ->
      loop_body st line =
      inr {| binary := binary st;
             line_nr := line_nr st + 1;
             stdout := stdout st ++
                       [mk_diag (line_nr st + 1) (strip line) e] |}) /\
  compile "DELAY 0" = inr (zeros 8, []) /\
  compile "DELAY 11" = inr (zeros 8, []) /\
  compile "DELAY 12" = inr (zeros 8, []) /\
  compile "DELAY 14" = inr (zeros 16, []).
Proof.
  split; [|split; [|repeat split; reflexivity]].
  - intros U line arg ms st Hcmd Hint _ Hbuilt.
    rewrite (loop_body_command st line _ _ Hcmd).
    unfold handler_bytes, handler_result, delay_reports in *.
    change (str_eqb (py "DELAY") (py "DELAY")) with true. cbv iota.
    rewrite Hint, bytes_repeat_built by (assumption || lia).
    now rewrite app_nil_r.
  - intros U line arg ms e st Hcmd Hint _ Hr Herr.
    rewrite (loop_body_command st line _ _ Hcmd).
    unfold handler_bytes, handler_result, delay_reports in *.
    change (str_eqb (py "DELAY") (py "DELAY")) with true. cbv iota.
    rewrite Hint, (bytes_repeat_raises _ e Hr Herr).
    now rewrite app_nil_r.
Qed.

Lemma delay_frame_count_witness :
  (@command_of ascii_unicode (py "DELAY 14") = Some (py "DELAY", py "14") /\
   ascii_int (py "14") = inr 14 /\
   ascii_repeat_error (8 * delay_reports 14) = None /\
   @loop_body ascii_unicode initial (py "DELAY 14") =
   inr {| binary := zeros 16; line_nr := 1; stdout := [] |}) /\
  (ascii_int (py "1000000000000000000000000000000") = inr (10 ^ 30) /\
   ascii_repeat_error (8 * delay_reports (10 ^ 30)) = Some OverflowError /\
   @loop_body ascii_unicode initial
     (py "DELAY 1000000000000000000000000000000") =
   inr {| binary := []; line_nr := 1;
          stdout := [mk_diag 1 (py "DELAY 1000000000000000000000000000000")
                             OverflowError] |}).
Proof.
  split.
  - split; [reflexivity|]. split; [reflexivity|]. split; [reflexivity|].
    apply (proj1 delay_frame_count ascii_unicode (py "DELAY 14") (py "14") 14
             initial); [reflexivity|reflexivity|lia|right; reflexivity].
  - split; [vm_compute; reflexivity|]. split; [vm_compute; reflexivity|].
    rewrite (proj1 (proj2 delay_frame_count) ascii_unicode
               (py "DELAY 1000000000000000000000000000000")
               (py "1000000000000000000000000000000") (10 ^ 30) OverflowError
               initial);
      [vm_compute; reflexivity|vm_compute; reflexivity
      |vm_compute; reflexivity|vm_compute; discriminate
      |vm_compute; discriminate|vm_compute; reflexivity].
Defined.

(** Claim C5, as stated, fails: the remainder [-5] is not a non-negative
    integer, yet [int()] accepts it and the line emits one zero report and
    no diagnostic. *)
Lemma delay_negative_counterexample :
  ascii_int (py "-5") = inr (-5) /\ -5 < 0 /\
  compile "DELAY -5" = inr (zeros 8, []) /\
  zeros 8 <> [].
Proof. repeat split. discriminate. Qed.

(** Claim C5, amended.  A [DELAY] line whose remainder [int()] rejects
    appends no byte and prints one diagnostic, for that line, and the loop
    goes on with the next line.  A remainder that [int()] reads as a
    negative integer is accepted: the line appends one zero report and
    prints nothing. *)
Theorem delay_parse_failure :
  (forall (U : Unicode) (line arg : str) (e : Exception) (st : State)
          (rest : list str),
      command_of line = Some (py "DELAY", arg) ->
      int arg = inl e ->
      for_lines (line :: rest) st =
      for_lines rest
        {| binary := binary st;
           line_nr := line_nr st + 1;
           stdout := stdout st ++ [mk_diag (line_nr st + 1) (strip line) e] |})
  /\
  (forall (U : Unicode) (line arg : str) (ms : Z) (st : State)
          (rest : list str),
      command_of line = Some (py "DELAY", arg) ->
      int arg = inr ms -> ms < 0 ->
      for_lines (line :: rest) st =
      for_lines rest
        {| binary := binary st ++ zeros 8;
           line_nr := line_nr st + 1;
           stdout := stdout st |}).
Proof.
  split.
  - intros U line arg e st rest Hcmd Hint. cbn [for_lines].
    rewrite (loop_body_command st line _ _ Hcmd).
    unfold handler_bytes, handler_result.
    change (str_eqb (py "DELAY") (py "DELAY")) with true. cbv iota.
    rewrite Hint. now rewrite app_nil_r.
  - intros U line arg ms st rest Hcmd Hint Hneg. cbn [for_lines].
    rewrite (loop_body_command st line _ _ Hcmd).
    unfold handler_bytes, handler_result.
    change (str_eqb (py "DELAY") (py "DELAY")) with true. cbv iota.
    rewrite Hint.
    replace (Z.max 1 ((ms + 10) / 12)) with 1.
    + rewrite bytes_repeat_one. now rewrite app_nil_r.
    + assert ((ms + 10) / 12 < 1) by (apply Z.div_lt_upper_bound; lia).
      lia.
Qed.

Lemma delay_parse_failure_witness :
  (@command_of ascii_unicode (py "DELAY abc") = Some (py "DELAY", py "abc") /\
   ascii_int (py "abc") = inl (ValueError_int (py "abc")) /\
   @for_lines ascii_unicode [py "DELAY abc"; py "DELAY 0"] initial =
   @for_lines ascii_unicode [py "DELAY 0"]
     {| binary := []; line_nr := 1;
        stdout := [mk_diag 1 (py "DELAY abc") (ValueError_int (py "abc"))] |})
  /\
  (@command_of ascii_unicode (py "DELAY -5") = Some (py "DELAY", py "-5") /\
   ascii_int (py "-5") = inr (-5) /\
   @for_lines ascii_unicode [py "DELAY -5"; py "DELAY abc"] initial =
   @for_lines ascii_unicode [py "DELAY abc"]
     {| binary := zeros 8; line_nr := 1; stdout := [] |}).
Proof.
  split; (split; [reflexivity|]); (split; [reflexivity|]).
  - apply (proj1 delay_parse_failure ascii_unicode (py "DELAY abc") (py "abc")
             (ValueError_int (py "abc")) initial [py "DELAY 0"]);
      reflexivity.
  - apply (proj2 delay_parse_failure ascii_unicode (py "DELAY -5") (py "-5")
             (-5) initial [py "DELAY abc"]); [reflexivity|reflexivity|lia].
Defined.

(** Claim C8.  For every script, the compiler returns, and the length of
    the returned byte stream is a multiple of 8. *)
Theorem stream_length_multiple_of_8 :
  forall (U : Unicode) (text : str),
    exists bytes diags,
      compile_duckyscript text = inr (bytes, diags) /\
      (length bytes mod 8 = 0)%nat.
Proof.
  intros U text. rewrite compile_duckyscript_lines.
  eexists. eexists. split; [reflexivity|].
  destruct (frames_length (flat_map line_bytes (splitlines text))) as [n Hn].
  - apply frames_flat_map. intros line. apply line_bytes_frames.
  - rewrite Hn, Nat.mul_comm. apply Nat.Div0.mod_mul.
Qed.

(** Claim C9.  For every script and every report of the returned stream
    (the 8 bytes from offset [8 * k]), byte 1 is zero and byte 0 is a
    modifier mask: a value below 16, with none of the bits 4 to 7 set. *)
Theorem report_reserved_and_modifier_bits :
  forall (U : Unicode) (text : str),
    exists bytes diags,
      compile_duckyscript text = inr (bytes, diags) /\
      forall k, (8 * k < length bytes)%nat ->
        nth (8 * k + 1) bytes 0 = 0 /\
        0 <= nth (8 * k) bytes 0 < 16 /\
        Z.land (nth (8 * k) bytes 0) 0xF0 = 0 /\
        (forall i, 4 <= i -> Z.testbit (nth (8 * k) bytes 0) i = false).
Proof.
  intros U text. rewrite compile_duckyscript_lines.
  eexists. eexists. split; [reflexivity|]. intros k Hk.
  destruct (frames_nth (flat_map line_bytes (splitlines text))) with (k := k)
    as [H1 Hm].
  - apply frames_flat_map. intros line. apply line_bytes_frames.
  - exact Hk.
  - split; [exact H1|]. split; [exact Hm|].
    split; [apply mask_high_bits; exact Hm|].
    intros i Hi. unfold is_mask in Hm.
    set (b := nth (8 * k) (flat_map line_bytes (splitlines text)) 0) in *.
    destruct (Z.eq_dec b 0) as [E|E].
    + rewrite E. apply Z.bits_0.
    + apply Z.bits_above_log2; [lia|].
      assert (Z.log2 b < 4) by (apply Z.log2_lt_pow2; [lia|change (2 ^ 4) with 16; lia]).
      lia.
Qed.

(** Claim C2, as stated, fails: the diagnostic of a failed line carries the
    text of the line with its surrounding whitespace stripped, not the
    original text of the line. *)
Lemma diagnostic_text_counterexample :
  compile "  DELAY abc" =
  inr ([], [mk_diag 1 (py "DELAY abc") (ValueError_int (py "abc"))]) /\
  py "DELAY abc" <> py "  DELAY abc".
Proof. split; [reflexivity|discriminate]. Qed.

(** Claim C2, amended.  For every script the compiler returns: no exception
    leaves the loop.  Whenever the [try] block of a line raises, from any
    state of the loop, the buffer is left as it was, one diagnostic is
    printed, carrying the 1-based number of the line and the text of the
    line with its surrounding whitespace stripped together with the
    exception, and the loop goes on; when the block ends normally its bytes
    are appended and nothing is printed.  So the returned stream is the
    concatenation, in line order, of the bytes each line contributes when
    compiled on its own, and the diagnostics printed are, in line order, one
    for each line whose compilation raised.  A line raises at most once, and
    a line that raised contributes no byte. *)
Theorem per_line_error_containment :
  forall (U : Unicode) (text : str),
    compile_duckyscript text =
    inr (flat_map line_bytes (splitlines text),
         diagnostics 1 (splitlines text)) /\
    (forall line : str,
      line_errors line = [] \/
      exists e, line_errors line = [e] /\ line_bytes line = []) /\
    (forall (st : State) (line cmd arg : str),
      command_of line = Some (cmd, arg) ->
      (exists out,
          try_body cmd arg (binary st) = (inr tt, binary st ++ out) /\
          line_bytes line = out /\ line_errors line = [] /\
          loop_body st line =
          inr {| binary := binary st ++ out;
                 line_nr := line_nr st + 1;
                 stdout := stdout st |}) \/
      (exists e,
          try_body cmd arg (binary st) = (inl e, binary st) /\
          line_bytes line = [] /\ line_errors line = [e] /\
          loop_body st line =
          inr {| binary := binary st;
                 line_nr := line_nr st + 1;
                 stdout := stdout st ++
                           [mk_diag (line_nr st + 1) (strip line) e] |})).
Proof.
  intros U text. split; [apply compile_duckyscript_lines|]. split.
  - intros line. rewrite line_errors_handler, line_bytes_handler.
    destruct (command_of line) as [[cmd arg]|]; [|now left].
    destruct (handler_result cmd arg) as [e|] eqn:He; [|now left].
    right. exists e. split; [reflexivity|].
    eapply handler_raise_no_bytes. exact He.
  - intros st line cmd arg Hcmd.
    rewrite (loop_body_command st line _ _ Hcmd).
    rewrite line_errors_handler, line_bytes_handler, Hcmd.
    rewrite (try_body_appends cmd arg (binary st)).
    destruct (handler_result cmd arg) as [e|[]] eqn:He.
    + right. exists e. rewrite (handler_raise_no_bytes cmd arg e He).
      rewrite app_nil_r. repeat split.
    + left. exists (handler_bytes cmd arg). rewrite app_nil_r. repeat split.
Qed.

Lemma per_line_error_containment_witness :
  @command_of ascii_unicode (py " DELAY abc") = Some (py "DELAY", py "abc") /\
  @try_body ascii_unicode (py "DELAY") (py "abc") [7] =
    (inl (ValueError_int (py "abc")), [7]) /\
  @loop_body ascii_unicode {| binary := [7]; line_nr := 4; stdout := [] |}
    (py " DELAY abc") =
  inr {| binary := [7]; line_nr := 5;
         stdout := [mk_diag 5 (py "DELAY abc") (ValueError_int (py "abc"))] |}.
Proof.
  split; [reflexivity|]. split; [reflexivity|].
  destruct (proj2 (proj2 (per_line_error_containment ascii_unicode []))
              {| binary := [7]; line_nr := 4; stdout := [] |}
              (py " DELAY abc") (py "DELAY") (py "abc") eq_refl)
    as [(out & Ht & _)|(e & Ht & _ & _ & Hl)].
  - discriminate Ht.
  - rewrite Hl. inversion Ht. reflexivity.
Defined.

(** Claim C3, as stated, fails: a repeated key token is kept. *)
Lemma parse_key_duplicate_counterexample :
  resolve "a-a" = (0, [0x04; 0x04]) /\ ~ NoDup (snd (resolve "a-a")).
Proof.
  split; [reflexivity|].
  change (snd (resolve "a-a")) with [4; 4].
  intros H. inversion H as [|x l Hin _]; subst. apply Hin. now left.
Qed.

(** Claim C3, amended.  For every input string, the key list [parse_key]
    returns holds, in token order, the key code of every token that names a
    key and not a modifier, once for each occurrence of the token: repeated
    keys are kept.  The mask is the bitwise or of the masks of the tokens
    that name a modifier.  Tokens that name neither are dropped, and
    [parse_key] raises no error. *)
Theorem parse_key_tokens :
  forall (U : Unicode) (key_str : str),
    parse_key key_str =
    (fold_left Z.lor (flat_map token_mods (tokens key_str)) 0,
     flat_map token_keys (tokens key_str)).
Proof.
  intros U key_str. unfold parse_key, tokens. apply parse_key_fold.
Qed.

(** Claim C4, as stated, fails: a line whose first word is [rem] in lower
    case is not a comment; it is compiled as a key combo and here presses
    the key [a]. *)
Lemma rem_lowercase_counterexample :
  @first_word ascii_unicode (py "rem a") = Some (py "rem") /\
  ascii_upper (py "rem") = py "REM" /\
  compile "rem a" = inr (press_release 0 [0x04], []) /\
  press_release 0 [0x04] <> [].
Proof. repeat split. discriminate. Qed.

(** Claim C4, amended.  A line that, once stripped, begins with the
    upper-case characters [REM], and so every line whose first
    whitespace-delimited word is the upper-case [REM], is a comment: it
    appends no byte and prints nothing.  The test is case-sensitive: on
    ASCII text a line whose first word is [rem] in any other letter case is
    not a comment; the loop hands it to the key-combo handler, where the
    word [REM] names no key, so the line compiles as the key combo of its
    argument and prints nothing. *)
Theorem rem_comment_no_bytes :
  (forall (U : Unicode) (line : str) (st : State),
      startswith (strip line) (py "REM") = true \/
      first_word line = Some (py "REM") ->
      loop_body st line =
      inr {| binary := binary st; line_nr := line_nr st + 1;
             stdout := stdout st |}) /\
  (forall (line w : str) (st : State),
      Forall (fun c => (c < 128)%N) line ->
      @first_word ascii_unicode line = Some w ->
      ascii_upper w = py "REM" -> w <> py "REM" ->
      exists arg,
        @command_of ascii_unicode line = Some (py "REM", arg) /\
        @loop_body ascii_unicode st line =
        inr {| binary := binary st ++
                 match snd (@parse_key ascii_unicode arg) with
                 | [] => []
                 | k :: ks =>
                     press_release (fst (@parse_key ascii_unicode arg))
                                   (k :: ks)
                 end;
               line_nr := line_nr st + 1;
               stdout := stdout st |}).
Proof.
  split.
  - intros U line st H. apply loop_body_skip.
    apply comment_prefix_skip with (p := py "REM"); [now left|].
    destruct H as [H|H]; [exact H|]. now apply first_word_prefix.
  - intros line w st _ Hw Hup Hne.
    destruct (rem_other_case_dispatched line w Hw Hup Hne) as (arg & Hcmd).
    exists arg. split; [exact Hcmd|].
    rewrite (loop_body_command st line _ _ Hcmd).
    unfold handler_result, handler_bytes, merged.
    change (str_eqb (py "REM") (py "DELAY")) with false.
    change (str_eqb (py "REM") (py "STRING")) with false.
    change (in_strs (py "REM") KEY_COMMANDS) with false. cbv iota.
    change (@parse_key ascii_unicode (py "REM")) with (0, @nil Z).
    rewrite app_nil_r. destruct arg as [|c arg].
    + change (@parse_key ascii_unicode []) with (0, @nil Z). reflexivity.
    + destruct (@parse_key ascii_unicode (c :: arg)) as [m ks].
      cbn [fst snd app]. rewrite Z.lor_0_l. destruct ks; reflexivity.
Qed.

Lemma rem_comment_no_bytes_witness :
  (@first_word ascii_unicode (py "  REM press a key") = Some (py "REM") /\
   @loop_body ascii_unicode initial (py "  REM press a key") =
   inr {| binary := []; line_nr := 1; stdout := [] |}) /\
  (@first_word ascii_unicode (py "Rem ctrl-a") = Some (py "Rem") /\
   @loop_body ascii_unicode initial (py "Rem ctrl-a") =
   inr {| binary := press_release 0x01 [0x04]; line_nr := 1; stdout := [] |}).
Proof.
  split; (split; [reflexivity|]).
  - apply (proj1 rem_comment_no_bytes ascii_unicode (py "  REM press a key")
             initial).
    right. reflexivity.
  - destruct (proj2 rem_comment_no_bytes (py "Rem ctrl-a") (py "Rem") initial)
      as (arg & Hcmd & Hl);
      [repeat constructor|reflexivity|reflexivity|discriminate|].
    rewrite Hl. vm_compute in Hcmd. inversion Hcmd. reflexivity.
Defined.

(** Claim C6.  [STRING A] compiles to 24 bytes: a report with the shift bit
    in byte 0 and the key code of [a] in byte 2, then 16 zero bytes.
    [STRING ab] compiles to two such groups, 48 bytes, without the shift
    bit.  In general a [STRING] line appends, for each character of its
    argument in turn, nothing when the character resolves to no key code,
    and otherwise one key-down report followed by two all-zero reports. *)
Theorem string_press_release_groups :
  dict_lookup MODIFIERS (py "shift") = Some 0x02 /\
  dict_lookup KEYMAP (py "a") = Some 0x04 /\
  dict_lookup KEYMAP (py "b") = Some 0x05 /\
  compile "STRING A" = inr ([0x02; 0; 0x04; 0; 0; 0; 0; 0] ++ zeros 16, []) /\
  length ([0x02; 0; 0x04; 0; 0; 0; 0; 0] ++ zeros 16) = 24%nat /\
  compile "STRING ab" =
    inr (([0; 0; 0x04; 0; 0; 0; 0; 0] ++ zeros 16) ++
         ([0; 0; 0x05; 0; 0; 0; 0; 0] ++ zeros 16), []) /\
  (forall (U : Unicode) (line arg : str) (st : State),
      command_of line = Some (py "STRING", arg) ->
      loop_body st line =
      inr {| binary := binary st ++ flat_map string_group arg;
             line_nr := line_nr st + 1;
             stdout := stdout st |}) /\
  (forall (U : Unicode) (arg : str) (bytes : bytearray),
      try_body (py "STRING") arg bytes =
      (inr tt, bytes ++ flat_map string_group arg)) /\
  (forall (U : Unicode) (ch : char),
      (string_key ch = 0 /\ string_group ch = []) \/
      (string_key ch <> 0 /\
       string_group ch =
       [string_mod ch; 0; string_key ch; 0; 0; 0; 0; 0] ++ zeros 16)).
Proof.
  repeat (split; [reflexivity|]).
  split; [|split].
  - intros U line arg st Hcmd.
    rewrite (loop_body_command st line _ _ Hcmd).
    unfold handler_result, handler_bytes.
    change (str_eqb (py "STRING") (py "DELAY")) with false.
    change (str_eqb (py "STRING") (py "STRING")) with true. cbv iota.
    now rewrite app_nil_r.
  - intros U arg bytes.
    exact (try_body_appends (py "STRING") arg bytes).
  - intros U ch. unfold string_group.
    destruct (Z.eqb_spec (string_key ch) 0) as [E|E]; [left|right];
      split; auto.
Qed.

Lemma string_press_release_groups_witness :
  @command_of ascii_unicode (py "STRING  Ab ") = Some (py "STRING", py "Ab") /\
  @loop_body ascii_unicode initial (py "STRING  Ab ") =
  inr {| binary := ([0x02; 0; 0x04; 0; 0; 0; 0; 0] ++ zeros 16) ++
                   ([0; 0; 0x05; 0; 0; 0; 0; 0] ++ zeros 16);
         line_nr := 1; stdout := [] |}.
Proof.
  split; [reflexivity|].
  apply (proj1 (proj2 (proj2 (proj2 (proj2 (proj2 (proj2
           string_press_release_groups))))))
           ascii_unicode (py "STRING  Ab ") (py "Ab") initial).
  reflexivity.
Defined.

(** Claim C7.  A generic key-combo line (a command word other than [DELAY],
    [STRING], [ENTER], [TAB], [ESC], [BACKSPACE]) that names at least one
    key appends one 24-byte group and prints nothing: the report holds the
    merged mask, the reserved zero byte and the first six merged key codes
    in the order met, padded with zeros, and two all-zero reports follow.
    Seven keys are cut to the first six.  [GUI r] compiles to the gui bit,
    the key code of [r] in slot 0, the other slots zero, then the release. *)
Theorem key_combo_truncation :
  (forall (U : Unicode) (line cmd arg : str) (st : State),
      command_of line = Some (cmd, arg) ->
      str_eqb cmd (py "DELAY") = false ->
      str_eqb cmd (py "STRING") = false ->
      in_strs cmd [py "ENTER"; py "TAB"; py "ESC"; py "BACKSPACE"] = false ->
      snd (merged cmd arg) <> [] ->
      loop_body st line =
      inr {| binary := binary st ++
               ([fst (merged cmd arg); 0] ++
                firstn 6 (snd (merged cmd arg)) ++
                zeros (6 - length (firstn 6 (snd (merged cmd arg))))) ++
               zeros 16;
             line_nr := line_nr st + 1;
             stdout := stdout st |}) /\
  (forall (U : Unicode) (cmd arg : str),
      merged cmd arg =
      match arg with
      | [] => parse_key cmd
      | _ => (Z.lor (fst (parse_key cmd)) (fst (parse_key arg)),
              snd (parse_key cmd) ++ snd (parse_key arg))
      end) /\
  resolve "a-b-c-d-e-f-g" = (0, [0x04; 0x05; 0x06; 0x07; 0x08; 0x09; 0x0A]) /\
  compile "a-b-c-d-e-f-g" =
    inr ([0; 0; 0x04; 0x05; 0x06; 0x07; 0x08; 0x09] ++ zeros 16, []) /\
  compile "a-b-c d-e-f-g" =
    inr ([0; 0; 0x04; 0x05; 0x06; 0x07; 0x08; 0x09] ++ zeros 16, []) /\
  dict_lookup MODIFIERS (py "gui") = Some 0x08 /\
  dict_lookup KEYMAP (py "r") = Some 0x15 /\
  compile "GUI r" = inr ([0x08; 0; 0x15; 0; 0; 0; 0; 0] ++ zeros 16, []).
Proof.
  split; [|split; [|repeat split]].
  - intros U line cmd arg st Hcmd Hd Hs Hk Hkeys.
    rewrite (loop_body_command st line _ _ Hcmd).
    unfold handler_result, handler_bytes, KEY_COMMANDS.
    rewrite Hd, Hs, Hk.
    destruct (merged cmd arg) as [m ks]. cbn [fst snd] in *.
    destruct ks as [|k ks]; [congruence|].
    now rewrite app_nil_r.
  - intros U cmd arg. unfold merged.
    destruct (parse_key cmd) as [m ks].
    destruct arg as [|c arg]; [reflexivity|].
    destruct (parse_key (c :: arg)) as [m2 ks2]. reflexivity.
Qed.

Lemma key_combo_truncation_witness :
  @command_of ascii_unicode (py "ctrl-a-b-c d-e-f-g") =
    Some (py "CTRL-A-B-C", py "d-e-f-g") /\
  @merged ascii_unicode (py "CTRL-A-B-C") (py "d-e-f-g") =
    (0x01, [0x04; 0x05; 0x06; 0x07; 0x08; 0x09; 0x0A]) /\
  @loop_body ascii_unicode initial (py "ctrl-a-b-c d-e-f-g") =
  inr {| binary := [0x01; 0; 0x04; 0x05; 0x06; 0x07; 0x08; 0x09] ++ zeros 16;
         line_nr := 1; stdout := [] |}.
Proof.
  split; [reflexivity|]. split; [reflexivity|].
  apply (proj1 key_combo_truncation ascii_unicode
           (py "ctrl-a-b-c d-e-f-g") (py "CTRL-A-B-C") (py "d-e-f-g") initial);
    [reflexivity|reflexivity|reflexivity|reflexivity|discriminate].
Defined.

(** Claim C10.  For every character of the shifted punctuation, whose
    lower-case form is the character itself, the [STRING] handler computes
    the shift bit, finds no key code under the lower-case form, and appends
    nothing for the character: the argument compiles as if the character
    were not there.  The ASCII [lower] leaves these characters unchanged,
    and a [STRING] line made of all of them compiles to no byte. *)
Theorem shifted_punctuation_skipped :
  (forall (U : Unicode) (ch : char),
      In ch SHIFTED -> lower [ch] = [ch] ->
      in_str ch SHIFTED = true /\
      string_mod ch = 0x02 /\
      dict_lookup KEYMAP (lower [ch]) = None /\
      string_key ch = 0 /\
      (forall bytes : bytearray, string_char ch bytes = (inr tt, bytes)) /\
      (forall (before behind : str) (bytes : bytearray),
          try_body (py "STRING") (before ++ ch :: behind) bytes =
          try_body (py "STRING") (before ++ behind) bytes)) /\
  (forall ch : char, In ch SHIFTED -> ascii_lower [ch] = [ch]) /\
  @compile_duckyscript ascii_unicode (py "STRING " ++ SHIFTED) = inr ([], []).
Proof.
  split; [|split; [|reflexivity]].
  - intros U ch Hin Hlower.
    assert (H : in_str ch SHIFTED = true /\
                string_mod ch = 0x02 /\
                dict_lookup KEYMAP (lower [ch]) = None /\
                string_key ch = 0).
    { unfold string_mod, string_key, dict_get. rewrite Hlower. clear Hlower.
      unfold SHIFTED in Hin. simpl in Hin.
      repeat (destruct Hin as [<-|Hin];
              [rewrite orb_true_r; repeat split|]).
      destruct Hin. }
    destruct H as (H1 & H2 & H3 & H4).
    assert (Hg : string_group ch = []).
    { unfold string_group. now rewrite H4. }
    repeat (split; [assumption|]). split.
    + intros bytes. rewrite (string_char_appends ch bytes), Hg.
      now rewrite app_nil_r.
    + intros before behind bytes.
      rewrite !(try_body_appends (py "STRING")).
      unfold handler_bytes.
      change (str_eqb (py "STRING") (py "DELAY")) with false.
      change (str_eqb (py "STRING") (py "STRING")) with true. cbv iota.
      rewrite !flat_map_app. cbn [flat_map]. now rewrite Hg.
  - intros ch Hin. unfold SHIFTED in Hin. simpl in Hin.
    repeat (destruct Hin as [<-|Hin]; [reflexivity|]). destruct Hin.
Qed.

Lemma shifted_punctuation_skipped_witness :
  In 33%N SHIFTED /\ ascii_lower [33%N] = [33%N] /\
  @string_char ascii_unicode 33%N [] = (inr tt, []) /\
  @try_body ascii_unicode (py "STRING") (py "a!b") [] =
  @try_body ascii_unicode (py "STRING") (py "ab") [].
Proof.
  assert (Hin : In 33%N SHIFTED) by (unfold SHIFTED; simpl; left; reflexivity).
  split; [exact Hin|].
  split; [exact (proj1 (proj2 shifted_punctuation_skipped) 33%N Hin)|].
  destruct (proj1 shifted_punctuation_skipped ascii_unicode 33%N Hin
              (eq_refl : @lower ascii_unicode [33%N] = [33%N]))
    as (_ & _ & _ & _ & Hchar & Hline).
  split; [apply Hchar|].
  exact (Hline (py "a") (py "b") []).
Defined.

(** * Further properties *)

(** ** Whitespace at the ends of a line *)

Lemma dropwhile_split f s :
  exists pre, s = pre ++ dropwhile f s /\ Forall (fun c => f c = true) pre.
Proof.
  induction s as [|x s (pre & IH & Hpre)]; simpl.
  - exists []. split; [reflexivity|constructor].
  - destruct (f x) eqn:Hx.
    + exists (x :: pre). split; [simpl; now rewrite <- IH|now constructor].
    + exists []. split; [reflexivity|constructor].
Qed.

Lemma dropwhile_all f w x :
  Forall (fun c => f c = true) w -> dropwhile f (w ++ x) = dropwhile f x.
Proof.
  induction 1 as [|c w Hc _ IH]; simpl; [reflexivity|]. now rewrite Hc.
Qed.

Lemma dropwhile_app_keep f l w c r :
  dropwhile f l = c :: r -> dropwhile f (l ++ w) = (c :: r) ++ w.
Proof.
  induction l as [|x l IH]; simpl; [discriminate|].
  destruct (f x); [exact IH|]. intros H. inversion H; subst. reflexivity.
Qed.

Lemma dropwhile_nil_all f l :
  dropwhile f l = [] -> Forall (fun c => f c = true) l.
Proof.
  induction l as [|x l IH]; simpl; [constructor|].
  destruct (f x) eqn:Hx; [|discriminate]. intros H. constructor; auto.
Qed.

Lemma Forall_rev_keep {A} (P : A -> Prop) l : Forall P l -> Forall P (rev l).
Proof.
  intros H. apply Forall_forall. intros x Hx. apply in_rev in Hx.
  exact (proj1 (Forall_forall P l) H x Hx).
Qed.

Lemma strip_by_blank sp w :
  Forall (fun c => sp c = true) w -> strip_by sp w = [].
Proof.
  intros Hw. unfold strip_by.
  rewrite <- (app_nil_r w), dropwhile_all by assumption. reflexivity.
Qed.

Lemma strip_by_app_space sp l w :
  Forall (fun c => sp c = true) w -> strip_by sp (l ++ w) = strip_by sp l.
Proof.
  intros Hw. unfold strip_by.
  destruct (dropwhile sp l) as [|c r] eqn:Hl.
  - apply dropwhile_nil_all in Hl.
    rewrite <- (app_nil_r (l ++ w)), dropwhile_all; [reflexivity|].
    apply Forall_app. auto.
  - rewrite (dropwhile_app_keep sp l w c r Hl), rev_app_distr.
    rewrite dropwhile_all; [reflexivity|]. now apply Forall_rev_keep.
Qed.

Lemma rstrip_by_split sp s :
  exists w, s = rstrip_by sp s ++ w /\ Forall (fun c => sp c = true) w.
Proof.
  unfold rstrip_by.
  destruct (dropwhile_split sp (rev s)) as (pre & Hs & Hpre).
  exists (rev pre). split; [|now apply Forall_rev_keep].
  rewrite <- rev_app_distr, <- Hs. now rewrite rev_involutive.
Qed.

(** ** The lines of a text *)

Lemma splitlines_by_boundary lb cur c s :
  lb c = true ->
  splitlines_by lb cur (c :: s) = rev cur :: splitlines_by lb [] (skip_lf c s).
Proof.
  intros Hc. simpl. rewrite Hc. unfold skip_lf.
  destruct s as [|d s]; [reflexivity|].
  destruct (N.eqb c 13 && N.eqb d 10); reflexivity.
Qed.

Lemma splitlines_by_inside lb cur c s :
  lb c = false ->
  splitlines_by lb cur (c :: s) = splitlines_by lb (c :: cur) s.
Proof. intros Hc. simpl. now rewrite Hc. Qed.

Lemma skip_lf_length c s : (length (skip_lf c s) <= length s)%nat.
Proof.
  unfold skip_lf. destruct s as [|d s]; [lia|].
  destruct (N.eqb c 13 && N.eqb d 10); simpl; lia.
Qed.

Lemma skip_lf_app c d s t : skip_lf c ((d :: s) ++ t) = skip_lf c (d :: s) ++ t.
Proof.
  unfold skip_lf. simpl. destruct (N.eqb c 13 && N.eqb d 10); reflexivity.
Qed.

Lemma skip_lf_Forall (P : char -> Prop) c s :
  Forall P s -> Forall P (skip_lf c s).
Proof.
  intros H. unfold skip_lf. destruct s as [|d s]; [assumption|].
  destruct (N.eqb c 13 && N.eqb d 10); [now inversion H|assumption].
Qed.

(** The lines of a whitespace-only text after the pending line [cur]: the
    pending line with more whitespace, then blank lines. *)
Lemma splitlines_by_space sp lb n : forall w cur,
  (length w <= n)%nat -> Forall (fun c => sp c = true) w ->
  (cur = [] /\ splitlines_by lb cur w = []) \/
  exists w' blanks,
    splitlines_by lb cur w = (rev cur ++ w') :: blanks /\
    Forall (fun c => sp c = true) w' /\
    Forall (fun l => strip_by sp l = []) blanks.
Proof.
  induction n as [|n IH]; intros w cur Hn Hw.
  - destruct w; [|simpl in Hn; lia]. simpl.
    destruct cur as [|c cur]; [now left|]. right. exists [], [].
    rewrite app_nil_r. repeat split; constructor.
  - destruct w as [|c w].
    { simpl. destruct cur as [|c cur]; [now left|]. right. exists [], [].
      rewrite app_nil_r. repeat split; constructor. }
    inversion Hw as [|? ? Hc Hw']; subst. simpl in Hn. right.
    destruct (lb c) eqn:Hlb.
    + rewrite splitlines_by_boundary by assumption.
      exists []. rewrite app_nil_r.
      destruct (IH (skip_lf c w) []) as [[_ H]|(w' & blanks & H & Hw1 & Hb)].
      * pose proof (skip_lf_length c w). lia.
      * now apply skip_lf_Forall.
      * exists []. rewrite H. repeat split; constructor.
      * exists (w' :: blanks). rewrite H. simpl.
        repeat split; [constructor|].
        constructor; [now apply strip_by_blank|assumption].
    + rewrite splitlines_by_inside by assumption.
      destruct (IH w (c :: cur)) as [[H _]|(w' & blanks & H & Hw1 & Hb)];
        [lia|assumption|discriminate|].
      exists (c :: w'), blanks. rewrite H. simpl. rewrite <- app_assoc.
      repeat split; [constructor; assumption|assumption].
Qed.

Lemma same_lines_space sp lb w cur :
  Forall (fun c => sp c = true) w ->
  same_lines sp (match cur with [] => [] | _ => [rev cur] end)
             (splitlines_by lb cur w).
Proof.
  intros Hw.
  destruct (splitlines_by_space sp lb (length w) w cur (le_n _) Hw)
    as [[-> H]|(w' & blanks & H & Hw1 & Hb)]; rewrite H.
  - constructor. constructor.
  - destruct cur as [|c cur].
    + constructor. constructor; [now apply strip_by_blank|assumption].
    + constructor; [|now constructor].
      symmetry. now apply strip_by_app_space.
Qed.

Lemma same_lines_refl sp ls : same_lines sp ls ls.
Proof.
  induction ls as [|l ls IH]; [constructor; constructor|now constructor].
Qed.

(** Whitespace appended to a text changes its lines only by whitespace. *)
Lemma same_lines_append sp lb w n : forall s cur,
  (length s <= n)%nat -> Forall (fun c => sp c = true) w ->
  same_lines sp (splitlines_by lb cur s) (splitlines_by lb cur (s ++ w)).
Proof.
  induction n as [|n IH]; intros s cur Hn Hw.
  - destruct s; [|simpl in Hn; lia]. simpl app.
    change (splitlines_by lb cur [])
      with (match cur with [] => [] | _ => [rev cur] end).
    now apply same_lines_space.
  - destruct s as [|c s].
    { simpl app.
      change (splitlines_by lb cur [])
        with (match cur with [] => [] | _ => [rev cur] end).
      now apply same_lines_space. }
    simpl in Hn. rewrite <- app_comm_cons.
    destruct (lb c) eqn:Hlb.
    + rewrite !splitlines_by_boundary by assumption.
      constructor; [reflexivity|].
      destruct s as [|d s].
      * simpl app. change (skip_lf c []) with (@nil char).
        change (splitlines_by lb [] []) with (@nil str).
        apply (same_lines_space sp lb (skip_lf c w) []).
        now apply skip_lf_Forall.
      * rewrite skip_lf_app. apply IH; [|assumption].
        pose proof (skip_lf_length c (d :: s)). simpl in *. lia.
    + rewrite !splitlines_by_inside by assumption. apply IH; [lia|assumption].
Qed.

Lemma splitlines_by_newline lb b :
  lb NEWLINE = true -> forall n a cur,
  (length a <= n)%nat ->
  splitlines_by lb cur (a ++ NEWLINE :: b) =
  splitlines_by lb cur (a ++ [NEWLINE]) ++ splitlines_by lb [] b.
Proof.
  intros Hnl.
  assert (Hbase : forall cur,
            splitlines_by lb cur (NEWLINE :: b) =
            splitlines_by lb cur [NEWLINE] ++ splitlines_by lb [] b).
  { intros cur. rewrite !splitlines_by_boundary by assumption.
    unfold skip_lf, NEWLINE. simpl N.eqb. destruct b; reflexivity. }
  induction n as [|n IH]; intros a cur Hn.
  - destruct a; [|simpl in Hn; lia]. apply Hbase.
  - destruct a as [|c a]; [apply Hbase|]. simpl in Hn.
    rewrite <- !app_comm_cons. destruct (lb c) eqn:Hlb.
    + rewrite !splitlines_by_boundary by assumption. simpl app. f_equal.
      destruct a as [|d a].
      * simpl app. unfold skip_lf. change (N.eqb NEWLINE 10) with true.
        destruct (N.eqb c 13); cbn [andb]; [reflexivity|apply Hbase].
      * rewrite !skip_lf_app. apply IH.
        pose proof (skip_lf_length c (d :: a)). simpl in *. lia.
    + rewrite !splitlines_by_inside by assumption. apply IH. lia.
Qed.

Lemma splitlines_by_final_newline lb z :
  lb NEWLINE = true -> lb z = false -> forall n a cur,
  (length a <= n)%nat ->
  splitlines_by lb cur (a ++ [z] ++ [NEWLINE]) = splitlines_by lb cur (a ++ [z]).
Proof.
  intros Hnl Hz.
  assert (Hbase : forall cur,
            splitlines_by lb cur ([z] ++ [NEWLINE]) = splitlines_by lb cur [z]).
  { intros cur. simpl app.
    rewrite (splitlines_by_inside lb cur z [NEWLINE]) by assumption.
    rewrite (splitlines_by_inside lb cur z []) by assumption.
    rewrite splitlines_by_boundary by assumption. reflexivity. }
  assert (Hskip : forall c t, skip_lf c (z :: t) = z :: t).
  { intros c t. unfold skip_lf.
    destruct (N.eqb_spec z 10) as [E|_];
      [subst z; unfold NEWLINE in Hnl; congruence|].
    now rewrite andb_false_r. }
  induction n as [|n IH]; intros a cur Hn.
  - destruct a; [|simpl in Hn; lia]. apply Hbase.
  - destruct a as [|c a]; [apply Hbase|]. simpl in Hn.
    rewrite <- !app_comm_cons. destruct (lb c) eqn:Hlb.
    + rewrite !splitlines_by_boundary by assumption. f_equal.
      destruct a as [|d a].
      * simpl app. rewrite !Hskip. apply Hbase.
      * rewrite <- !app_comm_cons.
        change (d :: a ++ [z] ++ [NEWLINE])
          with ((d :: a) ++ [z] ++ [NEWLINE]).
        change (d :: a ++ [z]) with ((d :: a) ++ [z]).
        unfold skip_lf. cbn [app].
        destruct (N.eqb c 13 && N.eqb d 10).
        -- apply IH. simpl in Hn. lia.
        -- apply (IH (d :: a)). lia.
    + rewrite !splitlines_by_inside by assumption. apply IH. lia.
Qed.

(** ** Scripts that differ by whitespace or are joined by a newline *)

Section Scripts.

Context {U : Unicode}.

Lemma command_of_strip l l' : strip l = strip l' -> command_of l = command_of l'.
Proof. unfold command_of. cbv zeta. intros H. now rewrite H. Qed.

Lemma line_bytes_strip l l' : strip l = strip l' -> line_bytes l = line_bytes l'.
Proof.
  intros H. rewrite !line_bytes_handler. now rewrite (command_of_strip l l' H).
Qed.

Lemma line_errors_strip l l' :
  strip l = strip l' -> line_errors l = line_errors l'.
Proof.
  intros H. rewrite !line_errors_handler.
  now rewrite (command_of_strip l l' H).
Qed.

Lemma command_of_blank l : strip l = [] -> command_of l = None.
Proof. unfold command_of. cbv zeta. intros H. now rewrite H. Qed.

Lemma blank_lines_compiled ls :
  Forall (fun l => strip l = []) ls ->
  flat_map line_bytes ls = [] /\ forall nr, diagnostics nr ls = [].
Proof.
  induction 1 as [|l ls Hl _ [IHb IHd]]; [split; reflexivity|].
  pose proof (command_of_blank l Hl) as Hc. split.
  - cbn [flat_map]. rewrite IHb, line_bytes_handler, Hc. reflexivity.
  - intros nr. cbn [diagnostics]. rewrite IHd, line_errors_handler, Hc.
    reflexivity.
Qed.

Lemma same_lines_compiled ls ls' :
  same_lines isspace ls ls' ->
  flat_map line_bytes ls = flat_map line_bytes ls' /\
  forall nr, diagnostics nr ls = diagnostics nr ls'.
Proof.
  induction 1 as [ls' Hb|l l' ls ls' Hl _ [IHb IHd]].
  - destruct (blank_lines_compiled ls' Hb) as [H1 H2]. split.
    + now rewrite H1.
    + intros nr. now rewrite H2.
  - fold (strip l) in Hl. fold (strip l') in Hl. split.
    + cbn [flat_map]. now rewrite IHb, (line_bytes_strip l l' Hl).
    + intros nr. cbn [diagnostics].
      now rewrite IHd, (line_errors_strip l l' Hl), Hl.
Qed.

Lemma compile_append_space text w :
  Forall (fun c => isspace c = true) w ->
  compile_duckyscript (text ++ w) = compile_duckyscript text.
Proof.
  intros Hw. rewrite !compile_duckyscript_lines. unfold splitlines.
  destruct (same_lines_compiled _ _
              (same_lines_append isspace islinebreak w (length text) text []
                 (le_n _) Hw)) as [Hb Hd].
  now rewrite Hb, Hd.
Qed.

Lemma diagnostics_app l1 : forall nr l2,
  diagnostics nr (l1 ++ l2) =
  diagnostics nr l1 ++ diagnostics (nr + Z.of_nat (length l1)) l2.
Proof.
  induction l1 as [|l l1 IH]; intros nr l2.
  - simpl. now rewrite Z.add_0_r.
  - cbn [app diagnostics length]. rewrite IH, <- app_assoc.
    do 3 f_equal. lia.
Qed.

Lemma diagnostics_shift k ls : forall nr,
  diagnostics (nr + k) ls = map (shift_diag k) (diagnostics nr ls).
Proof.
  induction ls as [|l ls IH]; intros nr; [reflexivity|].
  cbn [diagnostics]. rewrite map_app, map_map.
  replace (nr + k + 1) with (nr + 1 + k) by lia. rewrite IH. reflexivity.
Qed.

End Scripts.

(** X10.  Whitespace appended to a script (spaces, blank lines, a final
    newline) changes neither the bytes returned nor the diagnostics
    printed. *)
Theorem trailing_whitespace_ignored :
  forall (U : Unicode) (text w : str),
    Forall (fun c => isspace c = true) w ->
    compile_duckyscript (text ++ w) = compile_duckyscript text.
Proof. intros U text w Hw. now apply compile_append_space. Qed.

Lemma trailing_whitespace_ignored_witness :
  @compile_duckyscript ascii_unicode (py "DELAY x" ++ [32; 10; 9; 13; 10]%N) =
  @compile_duckyscript ascii_unicode (py "DELAY x").
Proof.
  apply (trailing_whitespace_ignored ascii_unicode (py "DELAY x")
           [32; 10; 9; 13; 10]%N).
  repeat constructor.
Defined.

(** X11.  When the line feed is a line boundary and whitespace, as it is in
    Python, compiling two scripts joined by a line feed returns the bytes of
    the first followed by the bytes of the second, and prints the
    diagnostics of the first followed by those of the second with their line
    numbers moved by the number of lines of the first script followed by the
    line feed.  That number is the number of lines of the first script
    itself when the script ends in a character that is not a line
    boundary. *)
Theorem newline_join_composes :
  forall (U : Unicode) (a b : str),
    islinebreak NEWLINE = true -> isspace NEWLINE = true ->
    (exists bytes_a diags_a bytes_b diags_b,
      compile_duckyscript a = inr (bytes_a, diags_a) /\
      compile_duckyscript b = inr (bytes_b, diags_b) /\
      compile_duckyscript (a ++ NEWLINE :: b) =
      inr (bytes_a ++ bytes_b,
           diags_a ++
           map (shift_diag (Z.of_nat (length (splitlines (a ++ [NEWLINE])))))
               diags_b)) /\
    (forall (a0 : str) (z : char),
        a = a0 ++ [z] -> islinebreak z = false ->
        splitlines (a ++ [NEWLINE]) = splitlines a).
Proof.
  intros U a b Hlb Hsp. split.
  - pose proof (compile_append_space a [NEWLINE]) as Ha.
    rewrite !compile_duckyscript_lines in Ha.
    rewrite !compile_duckyscript_lines.
    do 4 eexists. split; [reflexivity|]. split; [reflexivity|].
    unfold splitlines in *.
    rewrite (splitlines_by_newline islinebreak b Hlb (length a) a [] (le_n _)).
    rewrite flat_map_app, diagnostics_app, diagnostics_shift.
    assert (Hw : Forall (fun c => isspace c = true) [NEWLINE])
      by (constructor; [assumption|constructor]).
    specialize (Ha Hw). inversion Ha as [[Hb Hd]].
    rewrite Hb, Hd. reflexivity.
  - intros a0 z -> Hz. unfold splitlines. rewrite <- app_assoc.
    apply (splitlines_by_final_newline islinebreak z Hlb Hz (length a0)).
    apply le_n.
Qed.

Lemma newline_join_composes_witness :
  @compile_duckyscript ascii_unicode (py "DELAY x" ++ NEWLINE :: py "DELAY y") =
  inr ([],
       [mk_diag 1 (py "DELAY x") (ValueError_int (py "x"));
        mk_diag 2 (py "DELAY y") (ValueError_int (py "y"))]) /\
  @splitlines ascii_unicode (py "DELAY x" ++ [NEWLINE]) =
  @splitlines ascii_unicode (py "DELAY x").
Proof.
  destruct (newline_join_composes ascii_unicode (py "DELAY x") (py "DELAY y")
              eq_refl eq_refl)
    as [(ba & da & bb & db & Ha & Hb & Hab) Hn].
  split.
  - rewrite Hab. vm_compute in Ha. vm_compute in Hb.
    inversion Ha; subst. inversion Hb; subst. reflexivity.
  - apply (Hn (py "DELAY ") 120%N); reflexivity.
Defined.

(** ** The caller *)

Lemma frames_mod8 bs : frames bs -> (length bs mod 8 = 0)%nat.
Proof.
  intros H. destruct (frames_length bs H) as [n Hn].
  rewrite Hn, Nat.mul_comm. apply Nat.Div0.mod_mul.
Qed.

Lemma frames_bytes bs : frames bs -> Forall is_byte bs.
Proof.
  induction 1 as [|r bs (m & ks & -> & _ & Hm & Hks) _ IH]; [constructor|].
  apply Forall_app. split; [|exact IH].
  constructor; [now apply mask_byte|].
  constructor; [unfold is_byte; lia|exact Hks].
Qed.

(** X12.  [compile_and_save] never takes its [except] branch because of the
    compiler.  When the editor text is not blank and the dialog returns a
    file name, the bytes the method hands to [write_bytes] are exactly those
    [compile_duckyscript] returns for the editor text as it stands: the
    [rstrip()] before compiling changes neither the bytes nor the
    diagnostics.  The size the method reports is the number of these bytes,
    a multiple of 8. *)
Theorem compile_and_save_outcome :
  forall (U : Unicode) (plain_text path : str),
    (forall e, fst (compile_and_save plain_text path) <> Fehler e) /\
    (strip plain_text <> [] -> path <> [] ->
     exists bytes printed,
       compile_duckyscript plain_text = inr (bytes, printed) /\
       compile_and_save plain_text path =
         (WriteBytes path bytes (length bytes), printed) /\
       (length bytes mod 8 = 0)%nat).
Proof.
  intros U t path.
  destruct (rstrip_by_split isspace t) as (w & Ht & Hw).
  assert (Hc : compile_duckyscript (rstrip t) = compile_duckyscript t).
  { unfold rstrip. rewrite Ht at 2. symmetry.
    now apply compile_append_space. }
  assert (Hs : strip (rstrip t) = strip t).
  { unfold rstrip, strip. rewrite Ht at 2. symmetry.
    now apply strip_by_app_space. }
  assert (Hrun : compile_and_save t path =
                 match strip t with
                 | [] => (Leer, [])
                 | _ =>
                     match path with
                     | [] => (Abgebrochen, diagnostics 1 (splitlines t))
                     | _ => (WriteBytes path
                               (flat_map line_bytes (splitlines t))
                               (length (flat_map line_bytes (splitlines t))),
                             diagnostics 1 (splitlines t))
                     end
                 end).
  { unfold compile_and_save. cbv zeta.
    rewrite Hs, Hc, compile_duckyscript_lines. reflexivity. }
  split.
  - intros e. rewrite Hrun.
    destruct (strip t); [discriminate|]. destruct path; discriminate.
  - intros Hne Hp.
    exists (flat_map line_bytes (splitlines t)), (diagnostics 1 (splitlines t)).
    split; [apply compile_duckyscript_lines|]. split.
    + rewrite Hrun. destruct (strip t); [contradiction|].
      destruct path; [contradiction|reflexivity].
    + apply frames_mod8, frames_flat_map. intros l. apply line_bytes_frames.
Qed.

Lemma compile_and_save_outcome_witness :
  @compile_and_save ascii_unicode (py "GUI r" ++ [10; 32; 10]%N) (py "p.dd") =
  (WriteBytes (py "p.dd") ([0x08; 0; 0x15; 0; 0; 0; 0; 0] ++ zeros 16) 24, []).
Proof.
  destruct (proj2 (compile_and_save_outcome ascii_unicode
                     (py "GUI r" ++ [10; 32; 10]%N) (py "p.dd")))
    as (bytes & printed & Hc & Hs & _); [discriminate|discriminate|].
  rewrite Hs. vm_compute in Hc. inversion Hc. reflexivity.
Defined.

(** ** The shape of the stream *)

Lemma grouped_nil : grouped [].
Proof. exists []. split; [reflexivity|constructor]. Qed.

Lemma grouped_app a b : grouped a -> grouped b -> grouped (a ++ b).
Proof.
  intros (ga & -> & Ha) (gb & -> & Hb). exists (ga ++ gb).
  split; [now rewrite concat_app|]. apply Forall_app. auto.
Qed.

Lemma grouped_one g : is_group g -> grouped g.
Proof.
  intros Hg. exists [g]. split; [simpl; now rewrite app_nil_r|].
  constructor; [assumption|constructor].
Qed.

Lemma grouped_zeros n : grouped (zeros (8 * n)).
Proof.
  induction n as [|n IH]; [apply grouped_nil|].
  replace (8 * S n)%nat with (8 + 8 * n)%nat by lia. rewrite zeros_app.
  apply grouped_app; [|exact IH]. apply grouped_one. now left.
Qed.

Lemma grouped_flat_map {A} (g : A -> bytearray) xs :
  (forall x, grouped (g x)) -> grouped (flat_map g xs).
Proof.
  intros Hg. induction xs as [|x xs IH]; simpl; [apply grouped_nil|].
  apply grouped_app; auto.
Qed.

Lemma grouped_press m k ks :
  is_mask m -> Forall is_keycode (k :: ks) ->
  grouped (press_release m (k :: ks)).
Proof.
  intros Hm Hk. apply grouped_one. right. exists m, k, ks. auto.
Qed.

Section Shape.

Context {U : Unicode}.

Lemma string_group_cases ch :
  string_group ch = [] \/
  exists m k, is_mask m /\ is_keycode k /\ (m = 0 \/ m = 0x02) /\
              string_group ch = press_release m [k].
Proof.
  unfold string_group.
  destruct (Z.eqb_spec (string_key ch) 0) as [|Hk]; [now left|]. right.
  exists (string_mod ch), (string_key ch).
  assert (Hm : string_mod ch = 0 \/ string_mod ch = 0x02).
  { unfold string_mod. destruct (N.eqb ch NEWLINE); [now left|].
    destruct (isupper [ch] || in_str ch SHIFTED); auto. }
  split; [unfold is_mask; destruct Hm as [-> | ->]; lia|].
  split; [|split; [exact Hm|reflexivity]].
  revert Hk. unfold string_key, dict_get, is_keycode.
  destruct (N.eqb ch NEWLINE); [lia|].
  destruct (N.eqb ch SPACE); [lia|].
  destruct (dict_lookup KEYMAP (lower [ch])) as [k|] eqn:Hk; [|lia].
  intros _. exact (KEYMAP_keycode _ _ Hk).
Qed.

Lemma handler_bytes_grouped cmd arg : grouped (handler_bytes cmd arg).
Proof.
  unfold handler_bytes.
  destruct (str_eqb cmd (py "DELAY")).
  { destruct (int arg) as [e|ms]; [apply grouped_nil|].
    destruct (bytes_repeat (zeros 8) (Z.max 1 ((ms + 10) / 12)))
      as [e|data] eqn:Hr; [apply grouped_nil|].
    apply bytes_repeat_zeros in Hr; [|lia]. subst data. apply grouped_zeros. }
  destruct (str_eqb cmd (py "STRING")).
  { apply grouped_flat_map. intros ch.
    destruct (string_group_cases ch) as [->|(m & k & Hm & Hk & _ & ->)];
      [apply grouped_nil|].
    apply grouped_press; [assumption|]. constructor; [assumption|constructor]. }
  destruct (in_strs cmd KEY_COMMANDS).
  { destruct (dict_lookup KEYMAP (lower cmd)) as [k|] eqn:Hk;
      [|apply grouped_nil].
    apply grouped_press; [unfold is_mask; lia|].
    constructor; [exact (KEYMAP_keycode _ _ Hk)|constructor]. }
  destruct (merged_inv cmd arg) as [Hm Hk].
  destruct (merged cmd arg) as [m ks]. cbn [fst snd] in Hm, Hk.
  destruct ks; [apply grouped_nil|]. now apply grouped_press.
Qed.

Lemma line_bytes_grouped line : grouped (line_bytes line).
Proof.
  rewrite line_bytes_handler.
  destruct (command_of line) as [[cmd arg]|]; [|apply grouped_nil].
  apply handler_bytes_grouped.
Qed.

End Shape.

(** X7.  The returned stream is a sequence of groups, each either one
    all-zero report (delay) or a key-down report, holding a modifier mask
    and at least one key code, followed by two all-zero reports: every key
    press is released before the next one. *)
Theorem stream_press_release_shape :
  forall (U : Unicode) (text : str),
    exists bytes diags groups,
      compile_duckyscript text = inr (bytes, diags) /\
      bytes = concat groups /\
      Forall (fun g =>
                g = zeros 8 \/
                exists m k ks,
                  0 <= m < 16 /\ Forall (fun x => 0 < x < 256) (k :: ks) /\
                  g = ([m; 0] ++ firstn 6 (k :: ks) ++
                       zeros (6 - length (firstn 6 (k :: ks)))) ++ zeros 16)
             groups.
Proof.
  intros U text. rewrite compile_duckyscript_lines.
  destruct (grouped_flat_map line_bytes (splitlines text) line_bytes_grouped)
    as (groups & Hb & Hg).
  exists (flat_map line_bytes (splitlines text)), (diagnostics 1 (splitlines text)),
    groups.
  split; [reflexivity|]. split; [exact Hb|]. exact Hg.
Qed.

(** X8.  No handler other than [DELAY] can raise: in a [STRING], named-key
    or key-combo line every byte store is accepted and every table lookup
    succeeds, so from any buffer the handler ends normally, and the bytes it
    appends all lie in [range(256)]. *)
Theorem handlers_never_refused :
  forall (U : Unicode) (cmd arg : str) (bytes : bytearray),
    str_eqb cmd (py "DELAY") = false ->
    exists out,
      try_body cmd arg bytes = (inr tt, bytes ++ out) /\
      Forall (fun b => 0 <= b < 256) out.
Proof.
  intros U cmd arg bytes Hd. exists (handler_bytes cmd arg). split.
  - rewrite (try_body_appends cmd arg bytes). unfold handler_result.
    now rewrite Hd.
  - apply frames_bytes, handler_bytes_frames.
Qed.

Lemma handlers_never_refused_witness :
  exists out,
    @try_body ascii_unicode (py "STRING") (py "aB/") [1; 2] =
      (inr tt, [1; 2] ++ out) /\
    Forall (fun b => 0 <= b < 256) out.
Proof.
  apply (handlers_never_refused ascii_unicode (py "STRING") (py "aB/") [1; 2]).
  reflexivity.
Defined.

(** ** Key combos *)

Lemma KEYMAP_range p k : dict_lookup KEYMAP p = Some k -> in_keymap_range k.
Proof.
  intros H. apply dict_lookup_In in H. unfold in_keymap_range.
  simpl in H. repeat (destruct H as [<-|H]; [lia|]). destruct H.
Qed.

Lemma split_on_app sep b a : forall cur,
  split_on sep cur (a ++ sep :: b) = split_on sep cur a ++ split_on sep [] b.
Proof.
  induction a as [|c a IH]; intros cur; simpl.
  - now rewrite N.eqb_refl.
  - destruct (N.eqb c sep); [now rewrite IH|apply IH].
Qed.

Lemma fold_lor_app l1 l2 : forall m,
  fold_left Z.lor (l1 ++ l2) m = Z.lor (fold_left Z.lor l1 m) (fold_left Z.lor l2 0).
Proof.
  assert (H : forall l m n, fold_left Z.lor l (Z.lor m n) =
                            Z.lor m (fold_left Z.lor l n)).
  { induction l as [|x l IH]; intros m n; simpl; [reflexivity|].
    now rewrite <- Z.lor_assoc, IH. }
  intros m. rewrite fold_left_app.
  rewrite <- (Z.lor_0_r (fold_left Z.lor l1 m)) at 1. apply H.
Qed.

Lemma lower_upper_char c : lower_char (upper_char c) = lower_char c.
Proof.
  unfold lower_char, upper_char, is_upper_letter, is_lower_letter, between.
  destruct (N.leb_spec 97 c), (N.leb_spec c 122); simpl;
    repeat match goal with
           | |- context [N.leb ?a ?b] => destruct (N.leb_spec a b); simpl
           end; lia.
Qed.

Lemma lower_lower_char c : lower_char (lower_char c) = lower_char c.
Proof.
  unfold lower_char, is_upper_letter, between.
  destruct (N.leb_spec 65 c), (N.leb_spec c 90); simpl;
    repeat match goal with
           | |- context [N.leb ?a ?b] => destruct (N.leb_spec a b); simpl
           end; lia.
Qed.

Section Combos.

Context {U : Unicode}.

Lemma parse_key_pair key_str :
  parse_key key_str =
  (fold_left Z.lor (flat_map token_mods (tokens key_str)) 0,
   flat_map token_keys (tokens key_str)).
Proof. unfold parse_key, tokens. apply parse_key_fold. Qed.

Lemma parse_key_join a b :
  lower (a ++ HYPHEN :: b) = lower a ++ HYPHEN :: lower b ->
  parse_key (a ++ HYPHEN :: b) =
  (Z.lor (fst (parse_key a)) (fst (parse_key b)),
   snd (parse_key a) ++ snd (parse_key b)).
Proof.
  intros Hl. rewrite !parse_key_pair. unfold tokens. rewrite Hl.
  rewrite split_on_app, map_app, !flat_map_app, fold_lor_app. reflexivity.
Qed.

End Combos.

(** X1.  For every input string, [parse_key] returns a mask between 0 and
    15 (only the bits of ctrl, shift, alt and gui) and key codes that all
    lie between [0x04] and [0x52], so none is the empty slot 0. *)
Theorem parse_key_range :
  forall (U : Unicode) (key_str : str),
    0 <= fst (parse_key key_str) < 16 /\
    Z.land (fst (parse_key key_str)) 0xF0 = 0 /\
    Forall (fun k => 0x04 <= k <= 0x52) (snd (parse_key key_str)).
Proof.
  intros U key_str.
  destruct (parse_key_inv key_str) as [Hm _].
  split; [exact Hm|]. split; [now apply mask_high_bits|].
  rewrite parse_key_pair. cbn [snd].
  induction (tokens key_str) as [|p ps IH]; [constructor|].
  cbn [flat_map]. apply Forall_app. split; [|exact IH].
  unfold token_keys. destruct (dict_lookup MODIFIERS p); [constructor|].
  destruct (dict_lookup KEYMAP p) as [k|] eqn:Hk; [|constructor].
  constructor; [exact (KEYMAP_range _ _ Hk)|constructor].
Qed.

(** X2.  [parse_key] composes over the hyphen: when lower-casing acts on
    the two parts separately (as it does on ASCII text), the combo [a-b]
    has the masks of [a] and [b] or-ed and the keys of [a] followed by those
    of [b].  Hence a generic line [X Y] merges exactly what [parse_key]
    returns for [X-Y]. *)
Theorem parse_key_hyphen_composes :
  (forall (U : Unicode) (a b : str),
      lower (a ++ HYPHEN :: b) = lower a ++ HYPHEN :: lower b ->
      parse_key (a ++ HYPHEN :: b) =
      (Z.lor (fst (parse_key a)) (fst (parse_key b)),
       snd (parse_key a) ++ snd (parse_key b))) /\
  (forall a b : str,
      @parse_key ascii_unicode (a ++ HYPHEN :: b) =
      (Z.lor (fst (@parse_key ascii_unicode a)) (fst (@parse_key ascii_unicode b)),
       snd (@parse_key ascii_unicode a) ++ snd (@parse_key ascii_unicode b))) /\
  (forall cmd arg : str,
      arg <> [] ->
      @merged ascii_unicode cmd arg =
      @parse_key ascii_unicode (cmd ++ HYPHEN :: arg)).
Proof.
  assert (Hascii : forall a b : str,
            @lower ascii_unicode (a ++ HYPHEN :: b) =
            @lower ascii_unicode a ++ HYPHEN :: @lower ascii_unicode b).
  { intros a b. simpl. unfold ascii_lower. now rewrite map_app. }
  split; [|split].
  - intros U a b. apply parse_key_join.
  - intros a b. apply parse_key_join, Hascii.
  - intros cmd arg Harg. rewrite (parse_key_join cmd arg (Hascii cmd arg)).
    unfold merged. destruct (@parse_key ascii_unicode cmd) as [m ks].
    destruct arg as [|c arg]; [congruence|].
    destruct (@parse_key ascii_unicode (c :: arg)) as [m2 ks2]. reflexivity.
Qed.

Lemma parse_key_hyphen_composes_witness :
  @parse_key ascii_unicode (py "ctrl-a" ++ HYPHEN :: py "alt-b") =
  (0x05, [0x04; 0x05]) /\
  @merged ascii_unicode (py "CTRL-A") (py "alt-b") =
  @parse_key ascii_unicode (py "CTRL-A" ++ HYPHEN :: py "alt-b").
Proof.
  split.
  - rewrite (proj1 parse_key_hyphen_composes ascii_unicode (py "ctrl-a")
               (py "alt-b") eq_refl).
    reflexivity.
  - apply (proj2 (proj2 parse_key_hyphen_composes)). discriminate.
Defined.

(** X16.  On ASCII text [parse_key] does not depend on letter case: the
    upper-case and the lower-case form of a combo resolve like the combo
    itself, which is why the loop may upper-case the command word first. *)
Theorem parse_key_case_insensitive :
  forall key_str : str,
    @parse_key ascii_unicode (ascii_upper key_str) =
      @parse_key ascii_unicode key_str /\
    @parse_key ascii_unicode (ascii_lower key_str) =
      @parse_key ascii_unicode key_str.
Proof.
  intros key_str. unfold parse_key. simpl lower. unfold ascii_lower, ascii_upper.
  rewrite !map_map. split.
  - rewrite (map_ext _ lower_char lower_upper_char). reflexivity.
  - rewrite (map_ext _ lower_char lower_lower_char). reflexivity.
Qed.

(** ** Lines that emit nothing, and named keys *)

Lemma str_eqb_eq a b : str_eqb a b = true -> a = b.
Proof. unfold str_eqb. destruct (str_eq_dec a b); [auto|discriminate]. Qed.

(** X3.  A generic line whose words name no key (modifiers alone, such as
    [SHIFT] or [CTRL ALT], or unknown words) appends nothing and prints
    nothing; the loop goes on with the next line. *)
Theorem keyless_combo_silent :
  forall (U : Unicode) (line cmd arg : str) (st : State) (rest : list str),
    command_of line = Some (cmd, arg) ->
    str_eqb cmd (py "DELAY") = false ->
    str_eqb cmd (py "STRING") = false ->
    in_strs cmd [py "ENTER"; py "TAB"; py "ESC"; py "BACKSPACE"] = false ->
    snd (merged cmd arg) = [] ->
    for_lines (line :: rest) st =
    for_lines rest
      {| binary := binary st; line_nr := line_nr st + 1;
         stdout := stdout st |}.
Proof.
  intros U line cmd arg st rest Hcmd Hd Hs Hk Hkeys. cbn [for_lines].
  rewrite (loop_body_command st line _ _ Hcmd).
  unfold handler_result, handler_bytes, KEY_COMMANDS. rewrite Hd, Hs, Hk.
  destruct (merged cmd arg) as [m ks]. cbn [snd] in Hkeys. subst ks.
  now rewrite !app_nil_r.
Qed.

Lemma keyless_combo_silent_witness :
  @for_lines ascii_unicode [py "CTRL alt-shift"; py "hello world"] initial =
  inr {| binary := []; line_nr := 2; stdout := [] |}.
Proof.
  rewrite (keyless_combo_silent ascii_unicode (py "CTRL alt-shift")
             (py "CTRL") (py "alt-shift") initial [py "hello world"]
             eq_refl eq_refl eq_refl eq_refl eq_refl).
  rewrite (keyless_combo_silent ascii_unicode (py "hello world")
             (py "HELLO") (py "world") _ []
             eq_refl eq_refl eq_refl eq_refl eq_refl).
  reflexivity.
Defined.

(** X4.  A line whose command word is [ENTER], [TAB], [ESC] or [BACKSPACE]
    ignores its argument: when the lower-case command word is in [KEYMAP]
    the line appends the key-down report of that key alone, with no
    modifier, and the release, whatever follows the word.  On ASCII text
    the four words resolve to [0x28], [0x2B], [0x29] and [0x2A]. *)
Theorem named_key_ignores_argument :
  (forall (U : Unicode) (line cmd arg : str) (k : Z) (st : State),
      command_of line = Some (cmd, arg) ->
      in_strs cmd [py "ENTER"; py "TAB"; py "ESC"; py "BACKSPACE"] = true ->
      dict_lookup KEYMAP (lower cmd) = Some k ->
      loop_body st line =
      inr {| binary := binary st ++ [0; 0; k; 0; 0; 0; 0; 0] ++ zeros 16;
             line_nr := line_nr st + 1;
             stdout := stdout st |}) /\
  dict_lookup KEYMAP (ascii_lower (py "ENTER")) = Some 0x28 /\
  dict_lookup KEYMAP (ascii_lower (py "TAB")) = Some 0x2B /\
  dict_lookup KEYMAP (ascii_lower (py "ESC")) = Some 0x29 /\
  dict_lookup KEYMAP (ascii_lower (py "BACKSPACE")) = Some 0x2A.
Proof.
  split; [|repeat split].
  intros U line cmd arg k st Hcmd Hin Hk.
  rewrite (loop_body_command st line _ _ Hcmd).
  assert (Hd : str_eqb cmd (py "DELAY") = false /\
               str_eqb cmd (py "STRING") = false).
  { unfold in_strs in Hin. simpl in Hin.
    repeat (apply orb_true_iff in Hin; destruct Hin as [Hin|Hin];
            [apply str_eqb_eq in Hin; subst cmd; split; reflexivity|]).
    discriminate. }
  destruct Hd as [Hd Hs].
  unfold handler_result, handler_bytes, KEY_COMMANDS. rewrite Hd, Hs, Hin, Hk.
  now rewrite app_nil_r.
Qed.

Lemma named_key_ignores_argument_witness :
  @loop_body ascii_unicode initial (py "enter ctrl-a") =
  inr {| binary := [0; 0; 0x28; 0; 0; 0; 0; 0] ++ zeros 16;
         line_nr := 1; stdout := [] |}.
Proof.
  apply (proj1 named_key_ignores_argument ascii_unicode (py "enter ctrl-a")
           (py "ENTER") (py "ctrl-a") 0x28 initial); reflexivity.
Defined.

(** X14.  A line that is blank, or that begins with [//] or [#] once
    stripped, appends nothing and prints nothing, but it counts: the line
    counter used for the diagnostics advances. *)
Theorem blank_and_comment_lines_counted :
  forall (U : Unicode) (line : str) (st : State) (rest : list str),
    strip line = [] \/
    startswith (strip line) (py "//") = true \/
    startswith (strip line) (py "#") = true ->
    for_lines (line :: rest) st =
    for_lines rest
      {| binary := binary st; line_nr := line_nr st + 1;
         stdout := stdout st |}.
Proof.
  intros U line st rest H. cbn [for_lines]. rewrite loop_body_skip; [reflexivity|].
  destruct H as [H|[H|H]].
  - now apply command_of_blank.
  - apply comment_prefix_skip with (p := py "//"); [right; now left|exact H].
  - apply comment_prefix_skip with (p := py "#");
      [right; right; now left|exact H].
Qed.

Lemma blank_and_comment_lines_counted_witness :
  @compile_duckyscript ascii_unicode
    (py "# setup" ++ NEWLINE :: py "  " ++ NEWLINE :: py "// wait"
       ++ NEWLINE :: py "DELAY x") =
  inr ([], [mk_diag 4 (py "DELAY x") (ValueError_int (py "x"))]).
Proof.
  unfold compile_duckyscript.
  change (@splitlines ascii_unicode
            (py "# setup" ++ NEWLINE :: py "  " ++ NEWLINE :: py "// wait"
               ++ NEWLINE :: py "DELAY x"))
    with [py "# setup"; py "  "; py "// wait"; py "DELAY x"].
  rewrite (blank_and_comment_lines_counted ascii_unicode (py "# setup") initial
             _ (or_intror (or_intror eq_refl))).
  rewrite (blank_and_comment_lines_counted ascii_unicode (py "  ") _
             _ (or_introl eq_refl)).
  rewrite (blank_and_comment_lines_counted ascii_unicode (py "// wait") _
             _ (or_intror (or_introl eq_refl))).
  reflexivity.
Defined.

(** ** Delays *)

(** X9.  A [DELAY] line whose argument [int()] reads as [ms], negative or
    not, and whose reports the interpreter can build, appends zero reports
    only, at least one: exactly one for every [ms] below 2, and from 2 ms on
    a number whose playing time at 12 ms a report misses [ms] by at most
    1 ms below and 10 ms above. *)
Theorem delay_reports_accuracy :
  forall (U : Unicode) (line arg : str) (ms : Z) (st : State),
    command_of line = Some (py "DELAY", arg) ->
    int arg = inr ms ->
    delay_reports ms = 1 \/ repeat_error (8 * delay_reports ms) = None ->
    exists reports,
      loop_body st line =
      inr {| binary := binary st ++ zeros (8 * Z.to_nat reports);
             line_nr := line_nr st + 1;
             stdout := stdout st |} /\
      1 <= reports /\
      (ms < 2 -> reports = 1) /\
      (2 <= ms -> ms - 1 <= 12 * reports <= ms + 10).
Proof.
  intros U line arg ms st Hcmd Hint Hbuilt.
  exists (delay_reports ms). split.
  - rewrite (loop_body_command st line _ _ Hcmd).
    unfold handler_bytes, handler_result, delay_reports in *.
    change (str_eqb (py "DELAY") (py "DELAY")) with true. cbv iota.
    rewrite Hint, bytes_repeat_built by (assumption || lia).
    now rewrite app_nil_r.
  - unfold delay_reports. split; [lia|]. split.
    + intros H.
      assert ((ms + 10) / 12 < 1) by (apply Z.div_lt_upper_bound; lia). lia.
    + intros H.
      pose proof (Z.div_mod (ms + 10) 12 ltac:(lia)).
      pose proof (Z.mod_pos_bound (ms + 10) 12 ltac:(lia)).
      assert (1 <= (ms + 10) / 12) by (apply Z.div_le_lower_bound; lia). lia.
Qed.

Lemma delay_reports_accuracy_witness :
  exists reports,
    @loop_body ascii_unicode initial (py "DELAY 100") =
    inr {| binary := zeros (8 * Z.to_nat reports); line_nr := 1;
           stdout := [] |} /\
    100 - 1 <= 12 * reports <= 100 + 10.
Proof.
  destruct (delay_reports_accuracy ascii_unicode (py "DELAY 100") (py "100")
              100 initial eq_refl eq_refl (or_intror eq_refl))
    as (r & Hl & _ & _ & Hacc).
  exists r. split; [exact Hl|]. apply Hacc. lia.
Defined.

(** ** Diagnostics *)

Section Diagnostics.

Context {U : Unicode}.

Lemma line_errors_cases line :
  line_errors line = [] \/
  exists arg e,
    command_of line = Some (py "DELAY", arg) /\
    (int arg = inl e \/
     exists ms, int arg = inr ms /\ 2 <= delay_reports ms /\
                repeat_error (8 * delay_reports ms) = Some e) /\
    line_errors line = [e].
Proof.
  rewrite line_errors_handler.
  destruct (command_of line) as [[cmd arg]|]; [|now left].
  unfold handler_result.
  destruct (str_eqb cmd (py "DELAY")) eqn:E; [|now left].
  apply str_eqb_eq in E. subst cmd.
  destruct (int arg) as [e|ms] eqn:Hint.
  - right. exists arg, e. auto.
  - destruct (bytes_repeat (zeros 8) (Z.max 1 ((ms + 10) / 12)))
      as [e|data] eqn:Hr; [|now left].
    right. exists arg, e. split; [reflexivity|]. split; [|reflexivity].
    right. exists ms. split; [exact Hint|].
    exact (bytes_repeat_raised _ _ Hr).
Qed.

Lemma diagnostics_In ls : forall nr d,
  In d (diagnostics nr ls) ->
  exists i line e,
    nth_error ls i = Some line /\ In e (line_errors line) /\
    d = mk_diag (nr + Z.of_nat i) (strip line) e.
Proof.
  induction ls as [|l ls IH]; intros nr d Hd; [destruct Hd|].
  cbn [diagnostics] in Hd. apply in_app_or in Hd. destruct Hd as [Hd|Hd].
  - apply in_map_iff in Hd. destruct Hd as (e & <- & He).
    exists 0%nat, l, e. rewrite Z.add_0_r. auto.
  - destruct (IH _ _ Hd) as (i & line & e & Hi & He & ->).
    exists (S i), line, e. split; [exact Hi|]. split; [exact He|].
    f_equal. lia.
Qed.

Lemma diagnostics_bounds ls : forall nr,
  Forall (fun d => nr <= diag_line_nr d < nr + Z.of_nat (length ls))
         (diagnostics nr ls).
Proof.
  intros nr. apply Forall_forall. intros d Hd.
  destruct (diagnostics_In ls nr d Hd) as (i & line & e & Hi & _ & ->).
  assert (i < length ls)%nat by (apply nth_error_Some; congruence).
  simpl. lia.
Qed.

Lemma diagnostics_sorted ls : forall nr,
  StronglySorted (fun d d' => diag_line_nr d < diag_line_nr d')
                 (diagnostics nr ls).
Proof.
  induction ls as [|l ls IH]; intros nr; [constructor|].
  cbn [diagnostics].
  destruct (line_errors_cases l) as [->|(arg & e & _ & _ & ->)];
    [apply IH|].
  simpl. constructor; [apply IH|].
  generalize (diagnostics_bounds ls (nr + 1)). apply Forall_impl.
  intros d Hd. simpl. lia.
Qed.

Lemma diagnostics_length ls : forall nr,
  (length (diagnostics nr ls) <= length ls)%nat.
Proof.
  induction ls as [|l ls IH]; intros nr; [simpl; lia|].
  cbn [diagnostics]. rewrite length_app, length_map.
  specialize (IH (nr + 1)).
  destruct (line_errors_cases l) as [->|(arg & e & _ & _ & ->)]; simpl; lia.
Qed.

End Diagnostics.

(** X5.  Only [DELAY] lines are ever reported: every diagnostic printed
    belongs to a line of the script whose command word is [DELAY], and its
    exception is the one [int()] raised on the argument or, when [int()]
    read the argument, the one the repetition of at least two reports
    raised.  It carries the 1-based position of that line among all the
    lines (blank lines and comments counted) and its stripped text.  So no
    [STRING], named-key or key-combo line is ever reported. *)
Theorem diagnostics_only_from_delay :
  forall (U : Unicode) (text : str),
    exists bytes diags,
      compile_duckyscript text = inr (bytes, diags) /\
      forall d, In d diags ->
        exists i line arg,
          nth_error (splitlines text) i = Some line /\
          diag_line_nr d = Z.of_nat i + 1 /\
          diag_line d = strip line /\
          command_of line = Some (py "DELAY", arg) /\
          (int arg = inl (diag_error d) \/
           exists ms,
             int arg = inr ms /\ 2 <= delay_reports ms /\
             repeat_error (8 * delay_reports ms) = Some (diag_error d)).
Proof.
  intros U text. rewrite compile_duckyscript_lines.
  do 2 eexists. split; [reflexivity|]. intros d Hd.
  destruct (diagnostics_In _ _ _ Hd) as (i & line & e & Hi & He & ->).
  destruct (line_errors_cases line) as [Hn|(arg & e' & Hc & Hint & Hl)].
  - rewrite Hn in He. destruct He.
  - rewrite Hl in He. destruct He as [<-|[]].
    exists i, line, arg. split; [exact Hi|].
    split; [unfold mk_diag; cbn [diag_line_nr]; lia|].
    split; [reflexivity|]. split; [exact Hc|exact Hint].
Qed.

(** X6.  The diagnostics are printed in strictly increasing line order, so
    no line is reported twice; their line numbers lie between 1 and the
    number of lines of the script, and there are at most as many
    diagnostics as lines. *)
Theorem diagnostics_strictly_increasing :
  forall (U : Unicode) (text : str),
    exists bytes diags,
      compile_duckyscript text = inr (bytes, diags) /\
      StronglySorted (fun d d' => diag_line_nr d < diag_line_nr d') diags /\
      Forall (fun d => 1 <= diag_line_nr d <=
                       Z.of_nat (length (splitlines text))) diags /\
      (length diags <= length (splitlines text))%nat.
Proof.
  intros U text. rewrite compile_duckyscript_lines.
  do 2 eexists. split; [reflexivity|].
  split; [apply diagnostics_sorted|]. split; [|apply diagnostics_length].
  generalize (diagnostics_bounds (splitlines text) 1). apply Forall_impl.
  intros d Hd. lia.
Qed.

(** ** No newline inside a line *)

Lemma dropwhile_In f s c : In c (dropwhile f s) -> In c s.
Proof.
  intros H. destruct (dropwhile_suffix f s) as [pre Hs]. rewrite Hs.
  apply in_or_app. now right.
Qed.

Lemma strip_by_In sp s c : In c (strip_by sp s) -> In c s.
Proof.
  unfold strip_by. intros H. apply in_rev in H.
  apply dropwhile_In in H. apply in_rev in H. now apply dropwhile_In in H.
Qed.

Lemma split_maxsplit1_by_In sp s p c :
  In p (split_maxsplit1_by sp s) -> In c p -> In c s.
Proof.
  unfold split_maxsplit1_by. intros Hp Hc.
  apply (dropwhile_In sp). destruct (dropwhile sp s) as [|x s1]; [destruct Hp|].
  pose proof (break_app sp (x :: s1)) as Happ.
  destruct (break sp (x :: s1)) as [w r]. cbn [fst snd] in Happ.
  rewrite Happ. apply in_or_app.
  destruct (dropwhile sp r) as [|y r'] eqn:Hr.
  - destruct Hp as [<-|[]]. now left.
  - destruct Hp as [<-|[<-|[]]]; [now left|right].
    apply (dropwhile_In sp). now rewrite Hr.
Qed.

Lemma splitlines_by_no_boundary lb n : forall s cur line,
  (length s <= n)%nat -> Forall (fun c => lb c = false) cur ->
  In line (splitlines_by lb cur s) -> Forall (fun c => lb c = false) line.
Proof.
  induction n as [|n IH]; intros s cur line Hn Hcur Hin.
  - destruct s; [|simpl in Hn; lia]. simpl in Hin.
    destruct cur; [destruct Hin|]. destruct Hin as [<-|[]].
    now apply Forall_rev_keep.
  - destruct s as [|c s].
    { simpl in Hin. destruct cur; [destruct Hin|]. destruct Hin as [<-|[]].
      now apply Forall_rev_keep. }
    simpl in Hn. destruct (lb c) eqn:Hlb.
    + rewrite splitlines_by_boundary in Hin by assumption.
      destruct Hin as [<-|Hin]; [now apply Forall_rev_keep|].
      apply (IH (skip_lf c s) [] line); [|constructor|exact Hin].
      pose proof (skip_lf_length c s). lia.
    + rewrite splitlines_by_inside in Hin by assumption.
      apply (IH s (c :: cur) line); [lia|now constructor|exact Hin].
Qed.

Section Newline.

Context {U : Unicode}.

Lemma command_of_arg_In line cmd arg c :
  command_of line = Some (cmd, arg) -> In c arg -> In c line.
Proof.
  unfold command_of. cbv zeta.
  destruct (strip line) as [|x l] eqn:Hl; [discriminate|].
  destruct (startswith_any (x :: l) COMMENT_PREFIXES); [discriminate|].
  destruct (split_maxsplit1 (x :: l)) as [|p0 ps] eqn:Hs; [discriminate|].
  intros H Hc. inversion H; subst; clear H.
  destruct ps as [|p1 ps]; [destruct Hc|]. simpl in Hc.
  apply (strip_by_In isspace). fold (strip line). rewrite Hl.
  apply (split_maxsplit1_by_In isspace (x :: l) p1).
  - fold (split_maxsplit1 (x :: l)). rewrite Hs. right. now left.
  - now apply (strip_by_In isspace).
Qed.

End Newline.

(** X13.  When the line feed is a line boundary, as it is in Python, no
    [STRING] argument the loop extracts from a line of the script contains a
    line feed, so the newline case of the handler (Enter, modifier forced to
    0) is never taken: the line appends, for each character in turn, what
    the handler without that case appends, the key being the space key or
    the table entry of the lower-case character and the modifier the shift
    bit or nothing. *)
Theorem argument_has_no_newline :
  forall (U : Unicode) (text line arg : str) (st : State),
    islinebreak NEWLINE = true ->
    In line (splitlines text) ->
    command_of line = Some (py "STRING", arg) ->
    ~ In NEWLINE arg /\
    loop_body st line =
    inr {| binary := binary st ++ flat_map plain_group arg;
           line_nr := line_nr st + 1;
           stdout := stdout st |} /\
    (forall bytes : bytearray,
        try_body (py "STRING") arg bytes =
        (inr tt, bytes ++ flat_map plain_group arg)).
Proof.
  intros U text line arg st Hlb Hline Hcmd.
  assert (Hno : ~ In NEWLINE arg).
  { intros Hin.
    apply (command_of_arg_In line (py "STRING") arg NEWLINE Hcmd) in Hin.
    pose proof (splitlines_by_no_boundary islinebreak (length text) text []
                  line (le_n _) (Forall_nil _) Hline) as Hall.
    pose proof (proj1 (Forall_forall _ _) Hall NEWLINE Hin) as Hf.
    simpl in Hf. congruence. }
  assert (Hgroups : flat_map string_group arg = flat_map plain_group arg).
  { clear Hcmd. induction arg as [|ch arg IH]; [reflexivity|].
    cbn [flat_map]. rewrite IH by (intros H; apply Hno; now right).
    f_equal. assert (Hne : N.eqb ch NEWLINE = false).
    { apply N.eqb_neq. intros ->. apply Hno. now left. }
    unfold string_group, string_key, string_mod, plain_group, plain_key,
      plain_mod.
    rewrite Hne. reflexivity. }
  assert (Hbytes : handler_bytes (py "STRING") arg = flat_map plain_group arg).
  { unfold handler_bytes.
    change (str_eqb (py "STRING") (py "DELAY")) with false.
    change (str_eqb (py "STRING") (py "STRING")) with true. exact Hgroups. }
  split; [exact Hno|]. split.
  - rewrite (loop_body_command st line _ _ Hcmd), Hbytes.
    unfold handler_result.
    change (str_eqb (py "STRING") (py "DELAY")) with false.
    now rewrite app_nil_r.
  - intros bytes. rewrite (try_body_appends (py "STRING") arg bytes), Hbytes.
    reflexivity.
Qed.

Lemma argument_has_no_newline_witness :
  @loop_body ascii_unicode initial (py "STRING a B") =
  inr {| binary := ([0; 0; 0x04; 0; 0; 0; 0; 0] ++ zeros 16) ++
                   ([0; 0; 0x2C; 0; 0; 0; 0; 0] ++ zeros 16) ++
                   ([0x02; 0; 0x05; 0; 0; 0; 0; 0] ++ zeros 16);
         line_nr := 1; stdout := [] |}.
Proof.
  destruct (argument_has_no_newline ascii_unicode
              (py "STRING a B" ++ NEWLINE :: py "ENTER") (py "STRING a B")
              (py "a B") initial eq_refl (or_introl eq_refl) eq_refl)
    as (_ & Hl & _).
  rewrite Hl. reflexivity.
Defined.

(** ** What [STRING] types on ASCII text *)

Lemma between_In lo hi c :
  between lo hi c = true ->
  In c (map N.of_nat (seq (N.to_nat lo) (N.to_nat hi - N.to_nat lo + 1))).
Proof.
  unfold between. intros H. apply andb_true_iff in H. destruct H as [H1 H2].
  apply N.leb_le in H1. apply N.leb_le in H2.
  apply in_map_iff. exists (N.to_nat c). split; [apply N2Nat.id|].
  apply in_seq. lia.
Qed.

Lemma string_key_below_128 :
  forallb (fun ch => Bool.eqb (negb (Z.eqb (@string_key ascii_unicode ch) 0))
                              (typeable ch))
          (map N.of_nat (seq 0 128)) = true.
Proof. vm_compute. reflexivity. Qed.

(** X15.  On ASCII text the [STRING] handler types a lower-case letter with
    the key code 4 plus its place in the alphabet and no modifier, the
    upper-case letter with the same key code and the shift bit, and a digit
    with the key codes [0x1E] to [0x26] for 1 to 9 and [0x27] for 0, without
    modifier; each as one key-down report and its release appended to the
    buffer. *)
Theorem string_letters_and_digits :
  (forall (c : char) (bytes : bytearray),
      is_lower_letter c = true ->
      @string_char ascii_unicode c bytes =
        (inr tt, bytes ++ [0; 0; Z.of_N c - 93; 0; 0; 0; 0; 0] ++ zeros 16) /\
      @string_char ascii_unicode (upper_char c) bytes =
        (inr tt, bytes ++ [0x02; 0; Z.of_N c - 93; 0; 0; 0; 0; 0] ++ zeros 16))
  /\
  (forall (c : char) (bytes : bytearray),
      between 49 57 c = true ->
      @string_char ascii_unicode c bytes =
        (inr tt, bytes ++ [0; 0; Z.of_N c - 19; 0; 0; 0; 0; 0] ++ zeros 16))
  /\
  (forall bytes : bytearray,
      @string_char ascii_unicode 48%N bytes =
        (inr tt, bytes ++ [0; 0; 0x27; 0; 0; 0; 0; 0] ++ zeros 16)).
Proof.
  split; [|split].
  - intros c bytes H. rewrite !(@string_char_appends ascii_unicode).
    apply between_In in H. simpl in H.
    repeat (destruct H as [<-|H]; [split; reflexivity|]). destruct H.
  - intros c bytes H. rewrite !(@string_char_appends ascii_unicode).
    apply between_In in H. simpl in H.
    repeat (destruct H as [<-|H]; [reflexivity|]). destruct H.
  - intros bytes. rewrite (@string_char_appends ascii_unicode). reflexivity.
Qed.

Lemma string_letters_and_digits_witness :
  @string_char ascii_unicode 122%N [] =
    (inr tt, [0; 0; 0x1D; 0; 0; 0; 0; 0] ++ zeros 16) /\
  @string_char ascii_unicode 90%N [] =
    (inr tt, [0x02; 0; 0x1D; 0; 0; 0; 0; 0] ++ zeros 16) /\
  @string_char ascii_unicode 57%N [] =
    (inr tt, [0; 0; 0x26; 0; 0; 0; 0; 0] ++ zeros 16).
Proof.
  destruct string_letters_and_digits as (Hl & Hd & _).
  destruct (Hl 122%N [] eq_refl) as [H1 H2].
  split; [exact H1|]. split; [exact H2|]. exact (Hd 57%N [] eq_refl).
Defined.

(** X17.  Among the ASCII characters (code points below 128) the [STRING]
    handler types exactly the letters, the digits, the space, the ten keys
    [- [ ] \ ; ' ` , . /] and the line feed (which no argument contains):
    for these it appends one key-down report, with modifier 0 or shift and a
    non-zero key code, and its release.  For every other ASCII character,
    the equals sign and all shifted punctuation among them, it appends
    nothing and raises nothing. *)
Theorem string_typeable_characters :
  forall (ch : char) (bytes : bytearray),
    (ch < 128)%N ->
    (typeable ch = true ->
     exists m k,
       (m = 0 \/ m = 0x02) /\ 0 < k < 256 /\
       @string_char ascii_unicode ch bytes =
         (inr tt, bytes ++ [m; 0; k; 0; 0; 0; 0; 0] ++ zeros 16)) /\
    (typeable ch = false ->
     @string_char ascii_unicode ch bytes = (inr tt, bytes)).
Proof.
  intros ch bytes Hlt.
  assert (H : negb (Z.eqb (@string_key ascii_unicode ch) 0) = typeable ch).
  { apply Bool.eqb_prop.
    apply (proj1 (forallb_forall _ _) string_key_below_128).
    apply in_map_iff. exists (N.to_nat ch). split; [apply N2Nat.id|].
    apply in_seq. lia. }
  rewrite (@string_char_appends ascii_unicode ch bytes). split.
  - intros Ht. rewrite Ht in H.
    destruct (@string_group_cases ascii_unicode ch)
      as [Hg|(m & k & _ & Hk & Hm & Hg)].
    + unfold string_group in Hg.
      destruct (Z.eqb (@string_key ascii_unicode ch) 0); [discriminate|].
      discriminate Hg.
    + exists m, k. split; [exact Hm|]. split; [exact Hk|]. now rewrite Hg.
  - intros Ht. rewrite Ht in H. unfold string_group.
    destruct (Z.eqb (@string_key ascii_unicode ch) 0); [|discriminate].
    now rewrite app_nil_r.
Qed.

Lemma string_typeable_characters_witness :
  @string_char ascii_unicode 61%N [9] = (inr tt, [9]) /\
  @string_char ascii_unicode 47%N [9] =
    (inr tt, [9] ++ [0; 0; 0x38; 0; 0; 0; 0; 0] ++ zeros 16).
Proof.
  split.
  - apply (proj2 (string_typeable_characters 61%N [9] eq_refl)). reflexivity.
  - destruct (proj1 (string_typeable_characters 47%N [9] eq_refl) eq_refl)
      as (m & k & _ & _ & H).
    rewrite H. vm_compute in H. inversion H. reflexivity.
Defined.

(** ** Indentation *)

Lemma strip_by_lead sp w l :
  Forall (fun c => sp c = true) w -> strip_by sp (w ++ l) = strip_by sp l.
Proof. intros Hw. unfold strip_by. now rewrite dropwhile_all. Qed.

(** X18.  Whitespace before and after a line is ignored: an indented line,
    or one with trailing blanks, leaves the loop in the same state as the
    line without them, diagnostics included. *)
Theorem line_whitespace_ignored :
  forall (U : Unicode) (line before behind : str) (st : State),
    Forall (fun c => isspace c = true) before ->
    Forall (fun c => isspace c = true) behind ->
    loop_body st (before ++ line ++ behind) = loop_body st line.
Proof.
  intros U line w w' st Hw Hw'.
  assert (Hs : strip (w ++ line ++ w') = strip line).
  { unfold strip. rewrite app_assoc, strip_by_app_space by assumption.
    now apply strip_by_lead. }
  rewrite !loop_body_after. unfold after.
  rewrite (command_of_strip _ _ Hs), Hs. reflexivity.
Qed.

Lemma line_whitespace_ignored_witness :
  @loop_body ascii_unicode initial ([32; 9]%N ++ py "DELAY x" ++ [32; 32]%N) =
  @loop_body ascii_unicode initial (py "DELAY x").
Proof.
  apply (line_whitespace_ignored ascii_unicode (py "DELAY x") [32; 9]%N
           [32; 32]%N initial); repeat constructor.
Defined.
